(** * Routing server: great-circle distance, bearing and estimates

    Shallow embedding of [servers/routing_server.py].  Python floats are
    read as real numbers: the arithmetic is exact, the rounding error of
    the machine operations is not modelled.  Dictionaries with a fixed
    set of keys are records, the open-ended location dictionaries of
    [find_nearby] are finite maps from strings to dynamically typed
    values, and the one place where a run-time type error can arise is
    modelled with an error monad.  The geocoding server's copy of the
    distance function and the weather server's table of weather codes
    are embedded as well.

    Where the rounding decides the outcome (the haversine term of two
    nearly opposite points can round to a number above 1, and its
    square root then raises), the distance, route and matrix
    computations are embedded a second time on IEEE doubles, in
    [FloatRun], with the functions of the C library as parameters. *)

From Stdlib Require Import PrimFloat Reals Lra Lia ZArith List.
From stdpp Require Import gmap strings list sorting pretty.

Local Open Scope R_scope.

(** ** The pieces of Python's [math] module and built-ins the code uses *)

Module PyMath.

(** [math.radians] and [math.degrees]: multiplication by a constant. *)
Definition radians (x : R) : R := x * (PI / 180).
Definition degrees (x : R) : R := x * (180 / PI).

(** [math.atan2(y, x)]: the angle of the point [(x, y)], in (-pi, pi];
    [atan2(0, 0)] is 0. *)
Definition atan2 (y x : R) : R :=
  if Rlt_dec 0 x then atan (y / x)
  else if Rlt_dec x 0 then
    if Rle_dec 0 y then atan (y / x) + PI else atan (y / x) - PI
  else if Rlt_dec 0 y then PI / 2
  else if Rlt_dec y 0 then - (PI / 2)
  else 0.

(** Largest integer below or equal to [x]. *)
Definition floor (x : R) : Z := (up x - 1)%Z.

(** [round(x)]: nearest integer, a tie goes to the even neighbour. *)
Definition round (x : R) : Z :=
  let f := floor x in
  let d := x - IZR f in
  if Rlt_dec d (1 / 2) then f
  else if Rlt_dec (1 / 2) d then (f + 1)%Z
  else if Z.even f then f else (f + 1)%Z.

(** [round(x, ndigits)]: the same rounding at [ndigits] decimals. *)
Definition round_to (x : R) (ndigits : nat) : R :=
  IZR (round (x * 10 ^ ndigits)) / 10 ^ ndigits.

(** [x // y] and [x % y] on floats: floored division, the remainder has
    the sign of [y]. *)
Definition floordiv (x y : R) : R := IZR (floor (x / y)).
Definition fmod (x y : R) : R := x - y * IZR (floor (x / y)).

(** [int(x)]: truncation towards zero. *)
Definition int (x : R) : Z :=
  if Rle_dec 0 x then floor x else (- floor (- x))%Z.

(** [f'{x:.1f}']: one decimal, rounded like [round]. *)
Definition format_1f (x : R) : string :=
  let n := Z.abs (round (x * 10)) in
  (if Rlt_dec x 0 then "-" else "") +:+ pretty (n / 10)%Z +:+ "."
  +:+ pretty (n mod 10)%Z.

(** Exceptions and the computations that may raise them. *)
Inductive exn := TypeError | KeyError.

Inductive result (A : Type) :=
  | Ok (a : A)
  | Raise (e : exn).
Arguments Ok {A} a.
Arguments Raise {A} e.

#[global] Instance result_ret : MRet result := fun A a => Ok a.
#[global] Instance result_bind : MBind result := fun A B f m =>
  match m with
  | Ok a => f a
  | Raise e => Raise e
  end.

(** Dynamically typed values stored in a dictionary: [None], numbers and
    strings. *)
Inductive value :=
  | VNone
  | VNum (x : R)
  | VStr (s : string).

Abbreviation dict := (gmap string value).

Definition is_None (v : value) : bool :=
  match v with VNone => true | _ => false end.

(** Using a value where a float is needed. *)
Definition as_float (v : value) : result R :=
  match v with VNum x => Ok x | _ => Raise TypeError end.

(** [d.get(k, dflt)] and [d[k]]. *)
Definition dict_get {V} (d : gmap string V) (k : string) (dflt : V) : V :=
  default dflt (d !! k).

Definition getitem {V} (d : gmap string V) (k : string) : result V :=
  match d !! k with
  | Some v => Ok v
  | None => Raise KeyError
  end.

(** [list.sort(key=...)]: the keys are computed first, then the list is
    sorted on them with [<] only, and stably: an element goes in front of
    the first one whose key is not smaller than its own. *)
Fixpoint insert_by_key {A} (x : R * A) (l : list (R * A)) : list (R * A) :=
  match l with
  | [] => [x]
  | y :: l' =>
      if Rlt_dec (fst y) (fst x) then y :: insert_by_key x l'
      else x :: y :: l'
  end.

Definition sort_by_key {A} (l : list (R * A)) : list (R * A) :=
  foldr insert_by_key [] l.

Definition list_sort {A} (key : A → result R) (l : list A) : result (list A) :=
  keyed ← mapM (fun x => k ← key x; mret (k, x)) l;
  mret (snd <$> sort_by_key keyed).

End PyMath.

Module RoutingServer.
Import PyMath.

Definition earth_radius_km : R := 6371.

Definition _calculate_distance (lat1 lon1 lat2 lon2 : R) : R :=
  let R := earth_radius_km in
  let lat1_rad := radians lat1 in
  let lat2_rad := radians lat2 in
  let delta_lat := radians (lat2 - lat1) in
  let delta_lon := radians (lon2 - lon1) in
  let a := sin (delta_lat / 2) ^ 2
           + cos lat1_rad * cos lat2_rad * sin (delta_lon / 2) ^ 2 in
  let c := 2 * atan2 (sqrt a) (sqrt (1 - a)) in
  R * c.

Definition _calculate_bearing (lat1 lon1 lat2 lon2 : R) : R :=
  let lat1_rad := radians lat1 in
  let lat2_rad := radians lat2 in
  let delta_lon := radians (lon2 - lon1) in
  let x := sin delta_lon * cos lat2_rad in
  let y := cos lat1_rad * sin lat2_rad
           - sin lat1_rad * cos lat2_rad * cos delta_lon in
  let bearing := atan2 x y in
  let bearing_degrees := fmod (degrees bearing + 360) 360 in
  bearing_degrees.

Definition directions : list string :=
  ["North"; "Northeast"; "East"; "Southeast";
   "South"; "Southwest"; "West"; "Northwest"]%string.

Definition _bearing_to_direction (bearing : R) : string :=
  let index := (round (bearing / 45) mod 8)%Z in
  nth (Z.to_nat index) directions ""%string.

(** *** [calculate_route] *)

Module Step.
Record t := mk {
  instruction : string;
  distance_km : R;
  distance_text : string }.
End Step.

Module Coordinates.
Record t := mk { latitude : R; longitude : R }.
End Coordinates.

Module Route.
Record t := mk {
  distance_km : R;
  distance_text : string;
  duration_minutes : R;
  duration_text : string;
  mode : string;
  steps : list Step.t;
  start_coordinates : Coordinates.t;
  end_coordinates : Coordinates.t;
  bearing : R;
  direction : string }.
End Route.

Definition route_factor : gmap string R :=
  {[ "driving" := 1.3; "walking" := 1.2; "cycling" := 1.25 ]}.

Definition avg_speeds : gmap string R :=
  {[ "driving" := 60; "walking" := 5; "cycling" := 20 ]}.

Definition calculate_route
    (start_lat start_lon end_lat end_lon : R) (mode : string) : Route.t :=
  let distance_km := _calculate_distance start_lat start_lon end_lat end_lon in
  let bearing := _calculate_bearing start_lat start_lon end_lat end_lon in
  let direction := _bearing_to_direction bearing in
  let estimated_distance := distance_km * dict_get route_factor mode 1.3 in
  let speed := dict_get avg_speeds mode 60 in
  let estimated_time_hours := estimated_distance / speed in
  let estimated_time_minutes := estimated_time_hours * 60 in
  let steps :=
    [ Step.mk ("Head " +:+ direction) (estimated_distance * 0.1)
        (format_1f (estimated_distance * 0.1) +:+ " km");
      Step.mk ("Continue " +:+ direction) (estimated_distance * 0.8)
        (format_1f (estimated_distance * 0.8) +:+ " km");
      Step.mk "Arrive at destination" (estimated_distance * 0.1)
        (format_1f (estimated_distance * 0.1) +:+ " km") ] in
  {| Route.distance_km := round_to estimated_distance 2;
     Route.distance_text := format_1f estimated_distance +:+ " km";
     Route.duration_minutes := round_to estimated_time_minutes 1;
     Route.duration_text :=
       if Rle_dec 60 estimated_time_minutes
       then pretty (int (floordiv estimated_time_minutes 60)) +:+ "h "
            +:+ pretty (int (fmod estimated_time_minutes 60)) +:+ "m"
       else pretty (int estimated_time_minutes) +:+ " min";
     Route.mode := mode;
     Route.steps := steps;
     Route.start_coordinates := Coordinates.mk start_lat start_lon;
     Route.end_coordinates := Coordinates.mk end_lat end_lon;
     Route.bearing := round_to bearing 1;
     Route.direction := direction |}.

(** *** [distance_matrix] *)

Module Cell.
Record t := mk {
  distance_km : R;
  route_distance_km : R;
  duration_minutes : R;
  origin_index : nat;
  destination_index : nat }.
End Cell.

Module Matrix.
Record t := mk {
  origins : list Coordinates.t;
  destinations : list Coordinates.t;
  matrix : list (list Cell.t) }.
End Matrix.

Definition distance_matrix (origins destinations : list (R * R)) : Matrix.t :=
  let matrix :=
    imap (fun i '(origin_lat, origin_lon) =>
      imap (fun j '(dest_lat, dest_lon) =>
        let distance :=
          _calculate_distance origin_lat origin_lon dest_lat dest_lon in
        let route_distance := distance * 1.3 in
        let time_minutes := (route_distance / 60) * 60 in
        {| Cell.distance_km := round_to distance 2;
           Cell.route_distance_km := round_to route_distance 2;
           Cell.duration_minutes := round_to time_minutes 1;
           Cell.origin_index := i;
           Cell.destination_index := j |}) destinations) origins in
  {| Matrix.origins := (fun '(lat, lon) => Coordinates.mk lat lon) <$> origins;
     Matrix.destinations :=
       (fun '(lat, lon) => Coordinates.mk lat lon) <$> destinations;
     Matrix.matrix := matrix |}.

(** *** [find_nearby] *)

(** The loop over [locations]; [nearby] is the list being appended to. *)
Fixpoint find_nearby_loop (center_lat center_lon radius_km : R)
    (locations nearby : list dict) : result (list dict) :=
  match locations with
  | [] => Ok nearby
  | location :: rest =>
      let lat := dict_get location "latitude" VNone in
      let lon := dict_get location "longitude" VNone in
      if is_None lat || is_None lon
      then find_nearby_loop center_lat center_lon radius_km rest nearby
      else
        lat ← as_float lat;
        lon ← as_float lon;
        let distance := _calculate_distance center_lat center_lon lat lon in
        if Rle_dec distance radius_km then
          let bearing := _calculate_bearing center_lat center_lon lat lon in
          let direction := _bearing_to_direction bearing in
          let result :=
            <["direction" := VStr direction]>
              (<["bearing" := VNum (round_to bearing 1)]>
                 (<["distance_km" := VNum (round_to distance 2)]> location)) in
          find_nearby_loop center_lat center_lon radius_km rest
            (nearby ++ [result])
        else find_nearby_loop center_lat center_lon radius_km rest nearby
  end.

Definition find_nearby (center_lat center_lon : R) (locations : list dict)
    (radius_km : R) : result (list dict) :=
  nearby ← find_nearby_loop center_lat center_lon radius_km locations [];
  list_sort (fun x => v ← getitem x "distance_km"; as_float v) nearby.

End RoutingServer.

(** ** The geocoding server's own distance function *)

Module GeocodingServer.
Import PyMath.

Definition _calculate_distance (lat1 lon1 lat2 lon2 : R) : R :=
  let R := 6371 in
  let lat1_rad := radians lat1 in
  let lat2_rad := radians lat2 in
  let delta_lat := radians (lat2 - lat1) in
  let delta_lon := radians (lon2 - lon1) in
  let a := sin (delta_lat / 2) ^ 2
           + cos lat1_rad * cos lat2_rad * sin (delta_lon / 2) ^ 2 in
  let c := 2 * atan2 (sqrt a) (sqrt (1 - a)) in
  R * c.

End GeocodingServer.

(** ** The weather server's table of weather codes *)

Module WeatherServer.

Definition code_map : gmap Z string :=
  list_to_map
   [ (0%Z, "Clear sky");
     (1%Z, "Mainly clear");
     (2%Z, "Partly cloudy");
     (3%Z, "Overcast");
     (45%Z, "Foggy");
     (48%Z, "Depositing rime fog");
     (51%Z, "Light drizzle");
     (53%Z, "Moderate drizzle");
     (55%Z, "Dense drizzle");
     (56%Z, "Light freezing drizzle");
     (57%Z, "Dense freezing drizzle");
     (61%Z, "Slight rain");
     (63%Z, "Moderate rain");
     (65%Z, "Heavy rain");
     (66%Z, "Light freezing rain");
     (67%Z, "Heavy freezing rain");
     (71%Z, "Slight snow");
     (73%Z, "Moderate snow");
     (75%Z, "Heavy snow");
     (77%Z, "Snow grains");
     (80%Z, "Slight rain showers");
     (81%Z, "Moderate rain showers");
     (82%Z, "Violent rain showers");
     (85%Z, "Slight snow showers");
     (86%Z, "Heavy snow showers");
     (95%Z, "Thunderstorm");
     (96%Z, "Thunderstorm with slight hail");
     (99%Z, "Thunderstorm with heavy hail") ].

Definition _interpret_weather_code (code : Z) : string :=
  default ("Unknown weather (code " +:+ pretty code +:+ ")")
          (code_map !! code).

End WeatherServer.

(** ** The distance, route and matrix computations on machine floats

    The same code read on IEEE double precision numbers.  The arithmetic
    is the machine's; the functions of the C library ([sin], [cos],
    [atan2], [pow]) and the float built-ins of Python that are not
    arithmetic (rounding, remainder, formatting) are parameters; they
    stand for these functions on finite arguments, where they return a
    float.  Here [math.sqrt] raises on a negative argument. *)

Module FloatRun.

#[local] Set Warnings "-inexact-float".

Inductive exn := ValueError.

Inductive outcome (A : Type) :=
  | Returns (a : A)
  | Raises (e : exn).
Arguments Returns {A} a.
Arguments Raises {A} e.

#[global] Instance outcome_ret : MRet outcome := fun A a => Returns a.
#[global] Instance outcome_bind : MBind outcome := fun A B f m =>
  match m with
  | Returns a => f a
  | Raises e => Raises e
  end.

(** [math.sqrt]: a negative argument is a domain error. *)
Definition sqrt (x : float) : outcome float :=
  if (x <? 0)%float then Raises ValueError else Returns (PrimFloat.sqrt x).

(** [math.pi], and the factors of [math.radians] and [math.degrees]. *)
Definition pi : float := 0x1.921fb54442d18p+1%float.
Definition radians (x : float) : float := (x * (pi / 180))%float.
Definition degrees (x : float) : float := (x * (180 / pi))%float.

Module Step.
Record t := mk {
  instruction : string;
  distance_km : float;
  distance_text : string }.
End Step.

Module Coordinates.
Record t := mk { latitude : float; longitude : float }.
End Coordinates.

Module Route.
Record t := mk {
  distance_km : float;
  distance_text : string;
  duration_minutes : float;
  duration_text : string;
  mode : string;
  steps : list Step.t;
  start_coordinates : Coordinates.t;
  end_coordinates : Coordinates.t;
  bearing : float;
  direction : string }.
End Route.

Module Cell.
Record t := mk {
  distance_km : float;
  route_distance_km : float;
  duration_minutes : float;
  origin_index : nat;
  destination_index : nat }.
End Cell.

Module Matrix.
Record t := mk {
  origins : list Coordinates.t;
  destinations : list Coordinates.t;
  matrix : list (list Cell.t) }.
End Matrix.

Definition earth_radius_km : float := 6371%float.

Definition route_factor : gmap string float :=
  {[ "driving" := 1.3%float; "walking" := 1.2%float;
     "cycling" := 1.25%float ]}.

Definition avg_speeds : gmap string float :=
  {[ "driving" := 60%float; "walking" := 5%float; "cycling" := 20%float ]}.

Section Libm.

Variables sin cos : float -> float.
Variables atan2 pow : float -> float -> float.
(** [round(x, ndigits)], [round(x)], [x % y], [x // y], [int(x)] and
    [f'{x:.1f}'] on floats. *)
Variable round_to : float -> nat -> float.
Variable round : float -> Z.
Variables fmod floordiv : float -> float -> float.
Variable int : float -> Z.
Variable format_1f : float -> string.

Definition _calculate_distance (lat1 lon1 lat2 lon2 : float) : outcome float :=
  let R := earth_radius_km in
  let lat1_rad := radians lat1 in
  let lat2_rad := radians lat2 in
  let delta_lat := radians (lat2 - lat1) in
  let delta_lon := radians (lon2 - lon1) in
  let a := (pow (sin (delta_lat / 2)) 2
            + cos lat1_rad * cos lat2_rad * pow (sin (delta_lon / 2)) 2)%float in
  root ← sqrt a;
  coroot ← sqrt (1 - a)%float;
  let c := (2 * atan2 root coroot)%float in
  Returns (R * c)%float.

Definition _calculate_bearing (lat1 lon1 lat2 lon2 : float) : float :=
  let lat1_rad := radians lat1 in
  let lat2_rad := radians lat2 in
  let delta_lon := radians (lon2 - lon1) in
  let x := (sin delta_lon * cos lat2_rad)%float in
  let y := (cos lat1_rad * sin lat2_rad
            - sin lat1_rad * cos lat2_rad * cos delta_lon)%float in
  let bearing := atan2 x y in
  let bearing_degrees := fmod (degrees bearing + 360)%float 360%float in
  bearing_degrees.

Definition _bearing_to_direction (bearing : float) : string :=
  let index := (round (bearing / 45)%float mod 8)%Z in
  nth (Z.to_nat index) RoutingServer.directions ""%string.

Definition calculate_route
    (start_lat start_lon end_lat end_lon : float) (mode : string)
    : outcome Route.t :=
  distance_km ← _calculate_distance start_lat start_lon end_lat end_lon;
  let bearing := _calculate_bearing start_lat start_lon end_lat end_lon in
  let direction := _bearing_to_direction bearing in
  let estimated_distance :=
    (distance_km * PyMath.dict_get route_factor mode 1.3)%float in
  let speed := PyMath.dict_get avg_speeds mode 60%float in
  let estimated_time_hours := (estimated_distance / speed)%float in
  let estimated_time_minutes := (estimated_time_hours * 60)%float in
  let steps :=
    [ Step.mk ("Head " +:+ direction) (estimated_distance * 0.1)%float
        (format_1f (estimated_distance * 0.1)%float +:+ " km");
      Step.mk ("Continue " +:+ direction) (estimated_distance * 0.8)%float
        (format_1f (estimated_distance * 0.8)%float +:+ " km");
      Step.mk "Arrive at destination" (estimated_distance * 0.1)%float
        (format_1f (estimated_distance * 0.1)%float +:+ " km") ] in
  Returns
    {| Route.distance_km := round_to estimated_distance 2;
       Route.distance_text := format_1f estimated_distance +:+ " km";
       Route.duration_minutes := round_to estimated_time_minutes 1;
       Route.duration_text :=
         if (60 <=? estimated_time_minutes)%float
         then pretty (int (floordiv estimated_time_minutes 60%float))
              +:+ "h "
              +:+ pretty (int (fmod estimated_time_minutes 60%float))
              +:+ "m"
         else pretty (int estimated_time_minutes) +:+ " min";
       Route.mode := mode;
       Route.steps := steps;
       Route.start_coordinates := Coordinates.mk start_lat start_lon;
       Route.end_coordinates := Coordinates.mk end_lat end_lon;
       Route.bearing := round_to bearing 1;
       Route.direction := direction |}.

(** The inner loop of [distance_matrix]: the cells of row [i] from
    column [j] on. *)
Fixpoint matrix_row (i : nat) (origin : float * float) (j : nat)
    (destinations : list (float * float)) : outcome (list Cell.t) :=
  match destinations with
  | [] => Returns []
  | (dest_lat, dest_lon) :: rest =>
      distance ← _calculate_distance origin.1 origin.2 dest_lat dest_lon;
      let route_distance := (distance * 1.3)%float in
      let time_minutes := ((route_distance / 60) * 60)%float in
      let cell :=
        {| Cell.distance_km := round_to distance 2;
           Cell.route_distance_km := round_to route_distance 2;
           Cell.duration_minutes := round_to time_minutes 1;
           Cell.origin_index := i;
           Cell.destination_index := j |} in
      row ← matrix_row i origin (S j) rest;
      Returns (cell :: row)
  end.

(** The outer loop: the rows from row [i] on. *)
Fixpoint matrix_rows (i : nat) (origins destinations : list (float * float))
    : outcome (list (list Cell.t)) :=
  match origins with
  | [] => Returns []
  | origin :: rest =>
      row ← matrix_row i origin 0 destinations;
      rows ← matrix_rows (S i) rest destinations;
      Returns (row :: rows)
  end.

Definition distance_matrix (origins destinations : list (float * float))
    : outcome Matrix.t :=
  matrix ← matrix_rows 0 origins destinations;
  Returns
    {| Matrix.origins :=
         (fun '(lat, lon) => Coordinates.mk lat lon) <$> origins;
       Matrix.destinations :=
         (fun '(lat, lon) => Coordinates.mk lat lon) <$> destinations;
       Matrix.matrix := matrix |}.

End Libm.

End FloatRun.

Import PyMath RoutingServer.

(** ** Vocabulary of the statements *)

(** The quantity under the square roots of the haversine formula. *)
Definition haversine_a (lat1 lon1 lat2 lon2 : R) : R :=
  sin (radians (lat2 - lat1) / 2) ^ 2
  + cos (radians lat1) * cos (radians lat2)
    * sin (radians (lon2 - lon1) / 2) ^ 2.



(** The cell the loop body builds for origin [i] and destination [j]. *)
Definition matrix_cell (i j : nat) (origin dest : R * R) : Cell.t :=
  let distance := _calculate_distance origin.1 origin.2 dest.1 dest.2 in
  {| Cell.distance_km := round_to distance 2;
     Cell.route_distance_km := round_to (distance * 1.3) 2;
     Cell.duration_minutes := round_to (distance * 1.3 / 60 * 60) 1;
     Cell.origin_index := i;
     Cell.destination_index := j |}.

(** Order of two elements decorated with their sort keys. *)
Definition key_le {A} (x y : R * A) : Prop := x.1 <= y.1.

(** The list [l] sorted stably on the key [k]. *)
Definition sorted_on {A} (k : A -> R) (l : list A) : list A :=
  (sort_by_key ((fun x => (k x, x)) <$> l)).*2.

(** The two coordinates of a location when both are numbers. *)
Definition numeric_coordinates (location : dict) : option (R * R) :=
  match dict_get location "latitude" VNone,
        dict_get location "longitude" VNone with
  | VNum lat, VNum lon => Some (lat, lon)
  | _, _ => None
  end.

(** A location without latitude or without longitude (the key is absent
    or holds [None]). *)
Definition lacks_coordinates (location : dict) : bool :=
  is_None (dict_get location "latitude" VNone)
  || is_None (dict_get location "longitude" VNone).

(** A location that either lacks a coordinate or has two numbers. *)
Definition usable (location : dict) : Prop :=
  lacks_coordinates location = true \/ is_Some (numeric_coordinates location).

(** The record appended for a location at [(lat, lon)]. *)
Definition nearby_record (center_lat center_lon lat lon : R)
    (location : dict) : dict :=
  let distance := _calculate_distance center_lat center_lon lat lon in
  let bearing := _calculate_bearing center_lat center_lon lat lon in
  <["direction" := VStr (_bearing_to_direction bearing)]>
    (<["bearing" := VNum (round_to bearing 1)]>
       (<["distance_km" := VNum (round_to distance 2)]> location)).

(** What the loop appends for one location, if anything. *)
Definition kept (center_lat center_lon radius_km : R) (location : dict)
    : option dict :=
  match numeric_coordinates location with
  | Some (lat, lon) =>
      if Rle_dec (_calculate_distance center_lat center_lon lat lon) radius_km
      then Some (nearby_record center_lat center_lon lat lon location)
      else None
  | None => None
  end.

(** Equality of reals is decidable, so lists can be filtered on a key. *)
#[global] Instance R_eq_dec : EqDecision R := Req_dec_T.

(** The attached distance of a returned record. *)
Definition distance_km_of (record : dict) : R :=
  match record !! "distance_km" with
  | Some (VNum x) => x
  | _ => 0
  end.

(** Two points clear of the poles and of opposite meridians: latitudes
    within 89 degrees of the equator, longitudes at most 179 degrees
    apart. *)
Definition clear_of_opposite (lat1 lon1 lat2 lon2 : R) : Prop :=
  Rabs lat1 <= 89 /\ Rabs lat2 <= 89 /\ Rabs (lon2 - lon1) <= 179.

(** The correctly rounded values of [sin], [cos] and [pow] on the
    arguments that the points (8, 0) and (-8, 180) give rise to: half the
    latitude difference, a quarter turn, the two latitudes, and the two
    squares. *)
Definition correctly_rounded_at_opposite_pair
    (sin cos : float -> float) (pow : float -> float -> float) : Prop :=
  sin (-0x1.1df46a2529d39p-3)%float = (-0x1.1d06c968d9e19p-3)%float
  /\ sin 0x1.921fb54442d18p+0%float = 1%float
  /\ cos 0x1.1df46a2529d39p-3%float = 0x1.fb046a930947ap-1%float
  /\ cos (-0x1.1df46a2529d39p-3)%float = 0x1.fb046a930947ap-1%float
  /\ pow (-0x1.1d06c968d9e19p-3)%float 2%float = 0x1.3d581ca184804p-6%float
  /\ pow 1%float 2%float = 1%float.

(** Tables with those values, to run the float code on that pair. *)
Definition sin_table (x : float) : float :=
  if (x =? 0x1.921fb54442d18p+0)%float then 1%float
  else if (x =? -0x1.1df46a2529d39p-3)%float
       then (-0x1.1d06c968d9e19p-3)%float
       else 0%float.

Definition cos_table (x : float) : float :=
  if (abs x =? 0x1.1df46a2529d39p-3)%float then 0x1.fb046a930947ap-1%float
  else 1%float.

Definition pow_table (x y : float) : float :=
  if (y =? 2)%float then (x * x)%float else 1%float.

(** ** Rounding *)

Section Rounding.

Lemma floor_spec x : IZR (floor x) <= x < IZR (floor x) + 1.
Proof.
  unfold floor. destruct (archimed x) as [Hgt Hle].
  rewrite minus_IZR. lra.
Qed.

Lemma floor_unique x n : IZR n <= x < IZR n + 1 -> floor x = n.
Proof.
  intros [Hlo Hhi]. destruct (floor_spec x) as [Flo Fhi].
  assert (IZR (floor x) < IZR (n + 1)) as H1 by (rewrite plus_IZR; lra).
  assert (IZR n < IZR (floor x + 1)) as H2 by (rewrite plus_IZR; lra).
  apply lt_IZR in H1, H2. lia.
Qed.

Lemma floor_IZR n : floor (IZR n) = n.
Proof. apply floor_unique. lra. Qed.

(** Away from a tie the nearest integer is returned. *)
Lemma round_near x n : IZR n - 1 / 2 < x < IZR n + 1 / 2 -> round x = n.
Proof.
  intros [Hlo Hhi]. unfold round.
  destruct (Rle_dec (IZR n) x) as [Hle|Hgt].
  - rewrite (floor_unique x n) by lra.
    destruct (Rlt_dec _ _); [done | lra].
  - rewrite (floor_unique x (n - 1)) by (rewrite minus_IZR; lra).
    rewrite minus_IZR.
    destruct (Rlt_dec _ _); [lra |].
    destruct (Rlt_dec _ _); [f_equal; lia | lra].
Qed.

(** At a tie the even neighbour is returned. *)
Lemma round_tie n :
  round (IZR n + 1 / 2) = if Z.even n then n else (n + 1)%Z.
Proof.
  unfold round. rewrite (floor_unique _ n) by lra.
  destruct (Rlt_dec _ _); [lra |].
  destruct (Rlt_dec _ _); [lra | done].
Qed.

Lemma round_IZR n : round (IZR n) = n.
Proof. apply round_near. lra. Qed.

(** The result is within one half of the argument. *)
Lemma round_error x : x - 1 / 2 <= IZR (round x) <= x + 1 / 2.
Proof.
  unfold round. destruct (floor_spec x) as [Flo Fhi].
  repeat destruct (Rlt_dec _ _); try destruct (Z.even _);
    rewrite ?plus_IZR; lra.
Qed.

Lemma round_mono x y : x <= y -> (round x <= round y)%Z.
Proof.
  intros Hxy.
  destruct (round_error x) as [_ Hx], (round_error y) as [Hy _].
  destruct (Z_lt_le_dec (round y) (round x)) as [Hlt|]; [| done].
  assert (IZR (round y) + 1 <= IZR (round x)) as Hgap.
  { rewrite <- plus_IZR. apply IZR_le. lia. }
  assert (x = y) as -> by lra. lia.
Qed.

Lemma round_strict x y : x + 1 < y -> (round x < round y)%Z.
Proof.
  intros Hxy.
  destruct (round_error x) as [_ Hx], (round_error y) as [Hy _].
  apply lt_IZR. lra.
Qed.

Lemma pow10_pos n : 0 < 10 ^ n.
Proof. apply pow_lt. lra. Qed.

Lemma round_to_mono x y n : x <= y -> round_to x n <= round_to y n.
Proof.
  intros Hxy. unfold round_to. pose proof (pow10_pos n) as Hp.
  apply Rmult_le_compat_r; [left; by apply Rinv_0_lt_compat |].
  apply IZR_le, round_mono. nra.
Qed.

Lemma round_to_strict x y n : x + / 10 ^ n < y -> round_to x n < round_to y n.
Proof.
  intros Hxy. unfold round_to. pose proof (pow10_pos n) as Hp.
  apply Rmult_lt_compat_r; [by apply Rinv_0_lt_compat |].
  apply IZR_lt, round_strict.
  apply (Rmult_lt_compat_r (10 ^ n)) in Hxy; [| done].
  rewrite Rmult_plus_distr_r, Rinv_l in Hxy; lra.
Qed.

Lemma round_to_error x n :
  x - / 2 * / 10 ^ n <= round_to x n <= x + / 2 * / 10 ^ n.
Proof.
  unfold round_to. pose proof (pow10_pos n) as Hp.
  destruct (round_error (x * 10 ^ n)) as [Hlo Hhi].
  assert (0 < / 10 ^ n) as Hi by by apply Rinv_0_lt_compat.
  apply (Rmult_le_compat_r (/ 10 ^ n)) in Hlo, Hhi; try lra.
  rewrite Rmult_minus_distr_r in Hlo. rewrite Rmult_plus_distr_r in Hhi.
  rewrite Rmult_assoc, Rinv_r, Rmult_1_r in Hlo, Hhi by lra.
  unfold Rdiv. lra.
Qed.

Lemma round_to_0 n : round_to 0 n = 0.
Proof.
  unfold round_to. rewrite Rmult_0_l, (round_IZR 0). unfold Rdiv. lra.
Qed.

Lemma round_to_nonneg x n : 0 <= x -> 0 <= round_to x n.
Proof. intros Hx. rewrite <- (round_to_0 n). by apply round_to_mono. Qed.

End Rounding.

(** ** [atan2] and the haversine term *)

Section Trigonometry.

Lemma atan_pos x : 0 < x -> 0 < atan x.
Proof. intros Hx. rewrite <- atan_0. by apply atan_increasing. Qed.

Lemma atan2_0_nonneg x : 0 <= x -> atan2 0 x = 0.
Proof.
  intros Hx. unfold atan2.
  destruct (Rlt_dec 0 x).
  - replace (0 / x) with 0 by (unfold Rdiv; lra). apply atan_0.
  - destruct (Rlt_dec x 0); [lra |].
    destruct (Rlt_dec 0 0); [lra | done].
Qed.

Lemma atan2_pos_0 y : 0 < y -> atan2 y 0 = PI / 2.
Proof.
  intros Hy. unfold atan2.
  destruct (Rlt_dec 0 0); [lra |].
  destruct (Rlt_dec 0 y); [done | lra].
Qed.

Lemma atan2_pos y x : 0 < y -> 0 <= x -> 0 < atan2 y x.
Proof.
  intros Hy Hx. unfold atan2. pose proof PI_RGT_0.
  destruct (Rlt_dec 0 x).
  - apply atan_pos. by apply Rdiv_lt_0_compat.
  - destruct (Rlt_dec x 0); [lra |].
    destruct (Rlt_dec 0 y); lra.
Qed.

Lemma atan2_nonneg y x : 0 <= y -> 0 <= x -> 0 <= atan2 y x.
Proof.
  intros [Hy | <-] Hx.
  - left. by apply atan2_pos.
  - rewrite atan2_0_nonneg; lra.
Qed.

(** On the right half-plane [atan2] recovers the angle. *)
Lemma atan2_sin_cos t :
  - (PI / 2) < t <= PI / 2 -> atan2 (sin t) (cos t) = t.
Proof.
  intros [Hlo [Hhi | ->]].
  - unfold atan2. pose proof (cos_gt_0 t Hlo Hhi).
    destruct (Rlt_dec 0 (cos t)); [| lra].
    by apply atan_tan.
  - rewrite sin_PI2, cos_PI2. apply atan2_pos_0. lra.
Qed.

Lemma distance_unfold lat1 lon1 lat2 lon2 :
  _calculate_distance lat1 lon1 lat2 lon2
  = 6371 * (2 * atan2 (sqrt (haversine_a lat1 lon1 lat2 lon2))
                      (sqrt (1 - haversine_a lat1 lon1 lat2 lon2))).
Proof. reflexivity. Qed.

Lemma radians_opp_half x : radians (- x) / 2 = - (radians x / 2).
Proof. unfold radians. lra. Qed.

Lemma sin_half_sqr_opp x :
  sin (radians (- x) / 2) ^ 2 = sin (radians x / 2) ^ 2.
Proof. rewrite radians_opp_half, sin_neg. simpl. lra. Qed.

Lemma haversine_a_sym lat1 lon1 lat2 lon2 :
  haversine_a lat1 lon1 lat2 lon2 = haversine_a lat2 lon2 lat1 lon1.
Proof.
  unfold haversine_a.
  replace (lat1 - lat2) with (- (lat2 - lat1)) by lra.
  replace (lon1 - lon2) with (- (lon2 - lon1)) by lra.
  rewrite !sin_half_sqr_opp. lra.
Qed.

Lemma sin_half_sqr x : sin (x / 2) ^ 2 = (1 - cos x) / 2.
Proof.
  replace x with (2 * (x / 2)) at 2 by lra.
  rewrite cos_2a_sin. simpl. lra.
Qed.

(** The term is half of one minus the inner product of two unit vectors;
    the square roots are therefore always taken of numbers in [0, 1]. *)
Lemma haversine_a_bounds lat1 lon1 lat2 lon2 :
  0 <= haversine_a lat1 lon1 lat2 lon2 <= 1.
Proof.
  unfold haversine_a. rewrite !sin_half_sqr.
  replace (radians (lat2 - lat1)) with (radians lat2 - radians lat1)
    by (unfold radians; lra).
  rewrite cos_minus.
  generalize (radians (lon2 - lon1)) (radians lat1) (radians lat2).
  intros l p q.
  pose proof (COS_bound l) as [Hl1 Hl2].
  pose proof (sin2_cos2 p) as Hp. pose proof (sin2_cos2 q) as Hq.
  unfold Rsqr in Hp, Hq.
  set (sp := sin p) in *. set (cp := cos p) in *.
  set (sq := sin q) in *. set (cq := cos q) in *. set (k := cos l) in *.
  pose proof (Rle_0_sqr (sp - sq)) as H1. pose proof (Rle_0_sqr (sp + sq)) as H2.
  pose proof (Rle_0_sqr (cp - cq)) as H3. pose proof (Rle_0_sqr (cp + cq)) as H4.
  unfold Rsqr in H1, H2, H3, H4.
  assert (- 1 <= sp * sq + cp * cq <= 1) as [Hd1 Hd2] by lra.
  assert (- 1 <= sp * sq - cp * cq <= 1) as [He1 He2] by lra.
  replace ((1 - (cq * cp + sq * sp)) / 2 + cp * cq * ((1 - k) / 2))
    with ((1 - ((1 + k) / 2 * (sp * sq + cp * cq)
                + (1 - k) / 2 * (sp * sq - cp * cq))) / 2) by field.
  assert (0 <= (1 + k) / 2) as Hu by lra.
  assert (0 <= (1 - k) / 2) as Hv by lra.
  assert ((1 + k) / 2 + (1 - k) / 2 = 1) as Huv by lra.
  revert Hu Hv Huv. generalize ((1 + k) / 2) ((1 - k) / 2).
  revert Hd1 Hd2 He1 He2.
  generalize (sp * sq + cp * cq) (sp * sq - cp * cq).
  intros d e Hd1 Hd2 He1 He2 u v Hu Hv Huv.
  split; nra.
Qed.

End Trigonometry.

(** ** Great-circle distance *)

Section Distance.

Lemma distance_same lat lon : _calculate_distance lat lon lat lon = 0.
Proof.
  rewrite distance_unfold.
  assert (haversine_a lat lon lat lon = 0) as ->.
  { unfold haversine_a, radians.
    replace (lat - lat) with 0 by lra. replace (lon - lon) with 0 by lra.
    replace (0 * (PI / 180) / 2) with 0 by lra.
    rewrite sin_0. simpl. lra. }
  rewrite sqrt_0, Rminus_0_r, sqrt_1, atan2_0_nonneg; lra.
Qed.

Lemma distance_sym lat1 lon1 lat2 lon2 :
  _calculate_distance lat1 lon1 lat2 lon2
  = _calculate_distance lat2 lon2 lat1 lon1.
Proof. by rewrite !distance_unfold, haversine_a_sym. Qed.

Lemma distance_nonneg lat1 lon1 lat2 lon2 :
  0 <= _calculate_distance lat1 lon1 lat2 lon2.
Proof.
  rewrite distance_unfold.
  pose proof (atan2_nonneg (sqrt (haversine_a lat1 lon1 lat2 lon2))
                (sqrt (1 - haversine_a lat1 lon1 lat2 lon2))
                (sqrt_pos _) (sqrt_pos _)).
  lra.
Qed.









(** Along a meridian the distance is the earth radius times the angle. *)
Lemma distance_along_meridian lat1 lat2 lon :
  0 <= lat2 - lat1 <= 180 ->
  _calculate_distance lat1 lon lat2 lon = 6371 * radians (lat2 - lat1).
Proof.
  intros [Hlo Hhi]. rewrite distance_unfold. pose proof PI_RGT_0 as Hpi.
  set (t := radians (lat2 - lat1) / 2).
  assert (0 <= t <= PI / 2) as [Ht0 Ht1] by (unfold t, radians; split; nra).
  assert (haversine_a lat1 lon lat2 lon = sin t ^ 2) as ->.
  { unfold haversine_a. fold t.
    replace (radians (lon - lon) / 2) with 0 by (unfold radians; lra).
    rewrite sin_0. simpl. lra. }
  assert (1 - sin t ^ 2 = cos t ^ 2) as ->.
  { pose proof (sin2_cos2 t) as H. unfold Rsqr in H. simpl. lra. }
  rewrite !sqrt_pow2.
  - rewrite atan2_sin_cos by lra. unfold t. lra.
  - apply cos_ge_0; lra.
  - apply sin_ge_0; lra.
Qed.

End Distance.

(** C1: the great-circle distance is symmetric in its two coordinates,
    and for identical points it is exactly 0. *)
Theorem distance_symmetric_and_zero_on_identical :
  forall lat1 lon1 lat2 lon2 : R,
    _calculate_distance lat1 lon1 lat2 lon2
    = _calculate_distance lat2 lon2 lat1 lon1
    /\ _calculate_distance lat1 lon1 lat1 lon1 = 0.
Proof.
  intros. split; [apply distance_sym | apply distance_same].
Qed.


(** ** Bearing and compass direction *)

Section Bearing.

Lemma fmod_range x y : 0 < y -> 0 <= fmod x y < y.
Proof.
  intros Hy. unfold fmod. destruct (floor_spec (x / y)) as [Hlo Hhi].
  apply (Rmult_le_compat_l y) in Hlo; [| lra].
  apply (Rmult_lt_compat_l y) in Hhi; [| lra].
  replace (y * (x / y)) with x in Hlo, Hhi by (field; lra).
  lra.
Qed.

Lemma fmod_small x y : 0 <= x < y -> fmod (x + y) y = x.
Proof.
  intros [Hlo Hhi]. unfold fmod.
  rewrite (floor_unique _ 1); [lra |].
  replace ((x + y) / y) with (x / y + 1) by (field; lra).
  assert (0 <= x / y < 1) as [H0 H1]; [| lra].
  split.
  - apply Rmult_le_pos; [done |]. left. apply Rinv_0_lt_compat. lra.
  - apply (Rmult_lt_reg_r y); [lra |].
    replace (x / y * y) with x by (field; lra). lra.
Qed.

Lemma fmod_id x y : 0 <= x < y -> fmod x y = x.
Proof.
  intros [Hlo Hhi]. unfold fmod.
  rewrite (floor_unique _ 0); [lra |].
  split.
  - apply Rmult_le_pos; [done |]. left. apply Rinv_0_lt_compat. lra.
  - apply (Rmult_lt_reg_r y); [lra |].
    replace (x / y * y) with x by (field; lra). lra.
Qed.

Lemma degrees_PI2 : degrees (PI / 2) = 90.
Proof. unfold degrees. field. apply PI_neq0. Qed.

Lemma degrees_0 : degrees 0 = 0.
Proof. unfold degrees. lra. Qed.

Lemma bearing_range lat1 lon1 lat2 lon2 :
  0 <= _calculate_bearing lat1 lon1 lat2 lon2 < 360.
Proof. unfold _calculate_bearing. apply fmod_range. lra. Qed.

Lemma bearing_same lat lon : _calculate_bearing lat lon lat lon = 0.
Proof.
  unfold _calculate_bearing.
  replace (radians (lon - lon)) with 0 by (unfold radians; lra).
  rewrite sin_0, cos_0, Rmult_0_l.
  replace (cos (radians lat) * sin (radians lat)
           - sin (radians lat) * cos (radians lat) * 1) with 0 by lra.
  rewrite atan2_0_nonneg, degrees_0 by lra.
  replace (0 + 360) with (0 + 360) by lra.
  apply fmod_small. lra.
Qed.

Lemma sin_radians_10_pos : 0 < sin (radians 10).
Proof.
  pose proof PI_RGT_0. apply sin_gt_0; unfold radians; lra.
Qed.

Lemma bearing_due_north : _calculate_bearing 0 0 10 0 = 0.
Proof.
  unfold _calculate_bearing.
  replace (radians (0 - 0)) with 0 by (unfold radians; lra).
  replace (radians 0) with 0 by (unfold radians; lra).
  rewrite sin_0, cos_0, Rmult_0_l.
  pose proof sin_radians_10_pos as Hs.
  rewrite atan2_0_nonneg, degrees_0 by lra.
  apply fmod_small. lra.
Qed.

Lemma bearing_due_east : _calculate_bearing 0 0 0 10 = 90.
Proof.
  unfold _calculate_bearing.
  replace (10 - 0) with 10 by lra.
  replace (radians 0) with 0 by (unfold radians; lra).
  rewrite sin_0, cos_0.
  replace (1 * 0 - 0 * 1 * cos (radians 10)) with 0 by lra.
  rewrite Rmult_1_r, atan2_pos_0, degrees_PI2 by apply sin_radians_10_pos.
  apply fmod_small. lra.
Qed.

Lemma bearing_due_south : _calculate_bearing 0 0 (- 10) 0 = 180.
Proof.
  unfold _calculate_bearing.
  replace (radians (0 - 0)) with 0 by (unfold radians; lra).
  replace (radians 0) with 0 by (unfold radians; lra).
  replace (radians (- 10)) with (- radians 10) by (unfold radians; lra).
  rewrite sin_0, cos_0, sin_neg.
  pose proof sin_radians_10_pos as Hs. pose proof PI_neq0.
  set (s := sin (radians 10)) in *.
  match goal with
  | |- context [atan2 ?x ?y] =>
      replace y with (- s) by lra; replace x with 0 by lra
  end.
  unfold atan2.
  destruct (Rlt_dec 0 (- s)); [lra |].
  destruct (Rlt_dec (- s) 0); [| lra].
  destruct (Rle_dec 0 0); [| lra].
  replace (0 / - s) with 0 by (field; lra).
  rewrite atan_0, Rplus_0_l.
  replace (degrees PI) with 180 by (unfold degrees; field; done).
  apply fmod_small. lra.
Qed.

Lemma bearing_due_west : _calculate_bearing 0 0 0 (- 10) = 270.
Proof.
  unfold _calculate_bearing.
  replace (- 10 - 0) with (- 10) by lra.
  replace (radians 0) with 0 by (unfold radians; lra).
  replace (radians (- 10)) with (- radians 10) by (unfold radians; lra).
  rewrite sin_0, cos_0, sin_neg.
  pose proof sin_radians_10_pos as Hs. pose proof PI_neq0.
  set (s := sin (radians 10)) in *.
  match goal with
  | |- context [atan2 ?x ?y] =>
      replace y with 0 by lra; replace x with (- s) by lra
  end.
  unfold atan2.
  destruct (Rlt_dec 0 0); [lra |].
  destruct (Rlt_dec 0 (- s)); [lra |].
  destruct (Rlt_dec (- s) 0); [| lra].
  replace (degrees (- (PI / 2)) + 360) with 270
    by (unfold degrees; field; done).
  apply fmod_id. lra.
Qed.

(** The index computed by [_bearing_to_direction] is always one of the
    eight positions of [directions]. *)
Lemma direction_index bearing :
  directions !! Z.to_nat (round (bearing / 45) mod 8)
  = Some (_bearing_to_direction bearing).
Proof.
  unfold _bearing_to_direction.
  pose proof (Z.mod_pos_bound (round (bearing / 45)) 8 eq_refl) as [Hlo Hhi].
  generalize dependent (round (bearing / 45) mod 8)%Z. intros i Hlo Hhi.
  assert (i = 0 \/ i = 1 \/ i = 2 \/ i = 3 \/ i = 4 \/ i = 5 \/ i = 6 \/ i = 7)%Z
    as Hi by lia.
  repeat (destruct Hi as [-> | Hi]; [reflexivity |]). by subst.
Qed.

(** Label of a bearing that is a whole multiple of 45 degrees. *)
Lemma direction_multiple (n : Z) :
  _bearing_to_direction (45 * IZR n)
  = nth (Z.to_nat (n mod 8)) directions ""%string.
Proof.
  unfold _bearing_to_direction.
  replace (45 * IZR n / 45) with (IZR n) by lra.
  by rewrite round_IZR.
Qed.

(** Label of a bearing half-way between two multiples of 45 degrees. *)
Lemma direction_half_way (n : Z) :
  _bearing_to_direction (45 * IZR n + 22.5)
  = nth (Z.to_nat ((if Z.even n then n else n + 1) mod 8)) directions ""%string.
Proof.
  unfold _bearing_to_direction.
  replace ((45 * IZR n + 22.5) / 45) with (IZR n + 1 / 2) by lra.
  by rewrite round_tie.
Qed.

End Bearing.

(** Evaluates the label of the bearing [45 * n]. *)
Ltac label_of_multiple n :=
  match goal with
  | |- _bearing_to_direction ?b = _ =>
      replace b with (45 * IZR n) by lra;
      rewrite direction_multiple; reflexivity
  end.

(** C7: the bearing of every ordered pair of coordinates lies in
    [0, 360); it is measured clockwise from north (from the origin of
    the coordinates due north is 0, due east 90, due south 180 and due
    west 270), and for identical origin and destination it is exactly
    0. *)
Theorem bearing_in_range_and_zero_on_identical :
  forall lat1 lon1 lat2 lon2 : R,
    0 <= _calculate_bearing lat1 lon1 lat2 lon2 < 360
    /\ _calculate_bearing lat1 lon1 lat1 lon1 = 0
    /\ _calculate_bearing 0 0 10 0 = 0
    /\ _calculate_bearing 0 0 0 10 = 90
    /\ _calculate_bearing 0 0 (- 10) 0 = 180
    /\ _calculate_bearing 0 0 0 (- 10) = 270.
Proof.
  intros. split; [apply bearing_range |].
  split; [apply bearing_same |].
  split; [apply bearing_due_north |].
  split; [apply bearing_due_east |].
  split; [apply bearing_due_south | apply bearing_due_west].
Qed.

(** C8: the direction label is the entry of the eight compass labels at
    index round(bearing / 45) mod 8; 0 is North, 90 East, 180 South,
    270 West and 45 Northeast. *)
Theorem direction_labels_of_compass_points :
  (forall bearing : R,
      directions !! Z.to_nat (round (bearing / 45) mod 8)
      = Some (_bearing_to_direction bearing))
  /\ length directions = 8%nat
  /\ _bearing_to_direction 0 = "North"%string
  /\ _bearing_to_direction 90 = "East"%string
  /\ _bearing_to_direction 180 = "South"%string
  /\ _bearing_to_direction 270 = "West"%string
  /\ _bearing_to_direction 45 = "Northeast"%string.
Proof.
  split; [apply direction_index |]. split; [reflexivity |].
  repeat split.
  - label_of_multiple 0%Z.
  - label_of_multiple 2%Z.
  - label_of_multiple 4%Z.
  - label_of_multiple 6%Z.
  - label_of_multiple 1%Z.
Qed.

(** C10: at a bearing exactly half-way between two labels the tie goes to
    the even multiple of 45 degrees: 22.5 is North (0.5 rounds to 0)
    while 67.5 is East (1.5 rounds to 2), so the half-way bearings fall
    alternately to the lower and to the upper label. *)
Theorem direction_ties_round_half_to_even :
  _bearing_to_direction 22.5 = "North"%string
  /\ _bearing_to_direction 67.5 = "East"%string
  /\ round 0.5 = 0%Z /\ round 1.5 = 2%Z
  /\ forall n : Z,
       round (IZR n + 1 / 2) = (if Z.even n then n else n + 1)%Z
       /\ _bearing_to_direction (45 * IZR n + 22.5)
          = nth (Z.to_nat ((if Z.even n then n else n + 1) mod 8))
                directions ""%string.
Proof.
  split; [| split; [| split; [| split]]].
  - replace 22.5 with (45 * IZR 0 + 22.5) by lra.
    by rewrite direction_half_way.
  - replace 67.5 with (45 * IZR 1 + 22.5) by lra.
    by rewrite direction_half_way.
  - replace 0.5 with (IZR 0 + 1 / 2) by lra. by rewrite round_tie.
  - replace 1.5 with (IZR 1 + 1 / 2) by lra. by rewrite round_tie.
  - intros n. split; [apply round_tie | apply direction_half_way].
Qed.

(** ** Route estimate *)

Section RouteEstimate.

Lemma route_factor_other mode :
  mode <> "driving"%string -> mode <> "walking"%string ->
  mode <> "cycling"%string -> route_factor !! mode = None.
Proof.
  intros Hd Hw Hc. unfold route_factor.
  rewrite !lookup_insert_ne by done. by apply lookup_singleton_ne.
Qed.

Lemma avg_speeds_other mode :
  mode <> "driving"%string -> mode <> "walking"%string ->
  mode <> "cycling"%string -> avg_speeds !! mode = None.
Proof.
  intros Hd Hw Hc. unfold avg_speeds.
  rewrite !lookup_insert_ne by done. by apply lookup_singleton_ne.
Qed.

Lemma duration_driving a b c d :
  Route.duration_minutes (calculate_route a b c d "driving")
  = round_to (_calculate_distance a b c d * 1.3 / 60 * 60) 1.
Proof. reflexivity. Qed.

Lemma duration_walking a b c d :
  Route.duration_minutes (calculate_route a b c d "walking")
  = round_to (_calculate_distance a b c d * 1.2 / 5 * 60) 1.
Proof. reflexivity. Qed.

Lemma duration_cycling a b c d :
  Route.duration_minutes (calculate_route a b c d "cycling")
  = round_to (_calculate_distance a b c d * 1.25 / 20 * 60) 1.
Proof. reflexivity. Qed.

End RouteEstimate.

(** C5, as stated, fails: for identical start and end the three durations
    are all 0, so walking does not take longer than cycling. *)
Lemma durations_equal_on_identical_points :
  ~ (Route.duration_minutes (calculate_route 0 0 0 0 "walking")
       > Route.duration_minutes (calculate_route 0 0 0 0 "cycling")
     /\ Route.duration_minutes (calculate_route 0 0 0 0 "cycling")
       > Route.duration_minutes (calculate_route 0 0 0 0 "driving")).
Proof.
  rewrite duration_walking, duration_cycling, duration_driving.
  rewrite distance_same.
  replace (0 * 1.2 / 5 * 60) with 0 by lra.
  replace (0 * 1.25 / 20 * 60) with 0 by lra.
  rewrite round_to_0. lra.
Qed.

(** C5, amended: on every coordinate pair the walking duration is at
    least the cycling duration, which is at least the driving duration;
    both inequalities are strict as soon as the straight-line distance
    exceeds 2/49 km (about 41 m); for identical points all three
    durations are 0. *)
Theorem durations_ordered_by_mode :
  forall start_lat start_lon end_lat end_lon : R,
    let duration mode :=
      Route.duration_minutes
        (calculate_route start_lat start_lon end_lat end_lon mode) in
    (duration "walking"%string >= duration "cycling"%string
     /\ duration "cycling"%string >= duration "driving"%string)
    /\ (2 / 49 < _calculate_distance start_lat start_lon end_lat end_lon ->
        duration "walking"%string > duration "cycling"%string
        /\ duration "cycling"%string > duration "driving"%string)
    /\ (start_lat = end_lat -> start_lon = end_lon ->
        duration "walking"%string = 0 /\ duration "cycling"%string = 0
        /\ duration "driving"%string = 0).
Proof.
  intros a b c d duration. unfold duration.
  rewrite duration_walking, duration_cycling, duration_driving.
  pose proof (distance_nonneg a b c d) as Hd.
  split; [| split].
  - split; apply Rle_ge, round_to_mono; lra.
  - intros Hfar. split; apply Rlt_gt, round_to_strict; simpl; lra.
  - intros <- <-. rewrite distance_same.
    replace (0 * 1.2 / 5 * 60) with 0 by lra.
    replace (0 * 1.25 / 20 * 60) with 0 by lra.
    replace (0 * 1.3 / 60 * 60) with 0 by lra.
    by rewrite round_to_0.
Qed.

Lemma durations_ordered_by_mode_witness :
  2 / 49 < _calculate_distance 0 0 1 0
  /\ (Route.duration_minutes (calculate_route 0 0 1 0 "walking")
      > Route.duration_minutes (calculate_route 0 0 1 0 "cycling")
      /\ Route.duration_minutes (calculate_route 0 0 1 0 "cycling")
         > Route.duration_minutes (calculate_route 0 0 1 0 "driving"))
  /\ (Route.duration_minutes (calculate_route 3 4 3 4 "walking") = 0
      /\ Route.duration_minutes (calculate_route 3 4 3 4 "cycling") = 0
      /\ Route.duration_minutes (calculate_route 3 4 3 4 "driving") = 0).
Proof.
  assert (2 / 49 < _calculate_distance 0 0 1 0) as Hfar.
  { rewrite distance_along_meridian by lra.
    pose proof PI2_3_2. unfold radians. lra. }
  split; [exact Hfar |]. split.
  - exact (proj1 (proj2 (durations_ordered_by_mode 0 0 1 0)) Hfar).
  - exact (proj2 (proj2 (durations_ordered_by_mode 3 4 3 4))
             eq_refl eq_refl).
Defined.

(** ** The haversine term on machine floats *)

Section OppositePoints.

Variables sin cos : float -> float.
Variables atan2 pow : float -> float -> float.
Hypothesis libm : correctly_rounded_at_opposite_pair sin cos pow.

(** For (8, 0) and (-8, 180) the haversine term is the sum of
    [0x1.3d581ca184804p-6] and [0x1.f6153f1af3dc1p-1], which rounds to
    [0x1.0000000000001p+0]: one unit in the last place above 1. *)
Lemma float_distance_opposite_pair :
  FloatRun._calculate_distance sin cos atan2 pow 8 0 (-8) 180
  = FloatRun.Raises FloatRun.ValueError.
Proof.
  destruct libm as (Hs1 & Hs2 & Hc1 & Hc2 & Hp1 & Hp2).
  unfold FloatRun._calculate_distance.
  change (FloatRun.radians (-8 - 8) / 2)%float
    with (-0x1.1df46a2529d39p-3)%float.
  change (FloatRun.radians (180 - 0) / 2)%float
    with (0x1.921fb54442d18p+0)%float.
  change (FloatRun.radians 8) with (0x1.1df46a2529d39p-3)%float.
  change (FloatRun.radians (-8)) with (-0x1.1df46a2529d39p-3)%float.
  cbv zeta. rewrite Hs1, Hs2, Hc1, Hc2, Hp1, Hp2.
  reflexivity.
Qed.

End OppositePoints.

(** C9: on machine floats, with [sin], [cos] and [pow] correctly rounded
    at the arguments involved, the call
    calculate_route(8, 0, -8, 180, mode) fails for every mode string, the
    unknown ones included: the haversine term of the two points rounds
    to 1.0000000000000002, and the square root of 1 minus that term
    raises ValueError before the mode is looked at. *)
Theorem calculate_route_raises_on_opposite_points :
  forall (sin cos : float -> float) (atan2 pow : float -> float -> float)
         (round_to : float -> nat -> float) (round : float -> Z)
         (fmod floordiv : float -> float -> float) (int : float -> Z)
         (format_1f : float -> string) (mode : string),
    correctly_rounded_at_opposite_pair sin cos pow ->
    FloatRun.calculate_route sin cos atan2 pow round_to round fmod floordiv
      int format_1f 8 0 (-8) 180 mode
    = FloatRun.Raises FloatRun.ValueError.
Proof.
  intros sin cos atan2 pow round_to round fmod floordiv int format_1f mode
    Hlibm.
  unfold FloatRun.calculate_route.
  by rewrite (float_distance_opposite_pair sin cos atan2 pow Hlibm).
Qed.

Lemma calculate_route_raises_on_opposite_points_witness :
  correctly_rounded_at_opposite_pair sin_table cos_table pow_table
  /\ FloatRun.calculate_route sin_table cos_table (fun _ _ => 0%float)
       pow_table (fun x _ => x) (fun _ => 0%Z) (fun x _ => x)
       (fun x _ => x) (fun _ => 0%Z) (fun _ => ""%string)
       8 0 (-8) 180 "flying"
     = FloatRun.Raises FloatRun.ValueError.
Proof.
  assert (Hlibm : correctly_rounded_at_opposite_pair sin_table cos_table
                    pow_table) by (vm_compute; repeat split).
  split; [exact Hlibm |].
  exact (calculate_route_raises_on_opposite_points sin_table cos_table
           (fun _ _ => 0%float) pow_table (fun x _ => x) (fun _ => 0%Z)
           (fun x _ => x) (fun x _ => x) (fun _ => 0%Z) (fun _ => ""%string)
           "flying" Hlibm).
Defined.

(** ** Distance matrix *)

Section DistanceMatrix.

Lemma matrix_unfold origins destinations :
  Matrix.matrix (distance_matrix origins destinations)
  = imap (fun i origin =>
            imap (fun j dest => matrix_cell i j origin dest) destinations)
         origins.
Proof.
  unfold distance_matrix. simpl.
  apply imap_ext. intros i [olat olon] _.
  apply imap_ext. by intros j [dlat dlon] _.
Qed.

Lemma matrix_cell_bounded i j origin dest :
  Cell.distance_km (matrix_cell i j origin dest)
  <= Cell.route_distance_km (matrix_cell i j origin dest).
Proof.
  unfold matrix_cell. simpl. apply round_to_mono.
  pose proof (distance_nonneg origin.1 origin.2 dest.1 dest.2). lra.
Qed.

Lemma matrix_lookup origins destinations i j origin dest :
  origins !! i = Some origin -> destinations !! j = Some dest ->
  Matrix.matrix (distance_matrix origins destinations) !! i ≫= (.!! j)
  = Some (matrix_cell i j origin dest).
Proof.
  intros Ho Hd. rewrite matrix_unfold, list_lookup_imap, Ho. simpl.
  by rewrite list_lookup_imap, Hd.
Qed.

End DistanceMatrix.

(** C6: on machine floats, with [sin], [cos] and [pow] correctly rounded
    at the arguments involved, the call
    distance_matrix([(8, 0)], [(-8, 180)]) returns no matrix: the distance
    of its one pair raises ValueError (the haversine term rounds to
    1.0000000000000002 and 1 minus it is negative), and the exception
    leaves the two loops. *)
Theorem distance_matrix_raises_on_opposite_points :
  forall (sin cos : float -> float) (atan2 pow : float -> float -> float)
         (round_to : float -> nat -> float),
    correctly_rounded_at_opposite_pair sin cos pow ->
    FloatRun.distance_matrix sin cos atan2 pow round_to
      [(8, 0)%float] [(-8, 180)%float]
    = FloatRun.Raises FloatRun.ValueError.
Proof.
  intros sin cos atan2 pow round_to Hlibm.
  unfold FloatRun.distance_matrix. simpl.
  by rewrite (float_distance_opposite_pair sin cos atan2 pow Hlibm).
Qed.

Lemma distance_matrix_raises_on_opposite_points_witness :
  correctly_rounded_at_opposite_pair sin_table cos_table pow_table
  /\ FloatRun.distance_matrix sin_table cos_table (fun _ _ => 0%float)
       pow_table (fun x _ => x) [(8, 0)%float] [(-8, 180)%float]
     = FloatRun.Raises FloatRun.ValueError.
Proof.
  assert (Hlibm : correctly_rounded_at_opposite_pair sin_table cos_table
                    pow_table) by (vm_compute; repeat split).
  split; [exact Hlibm |].
  exact (distance_matrix_raises_on_opposite_points sin_table cos_table
           (fun _ _ => 0%float) pow_table (fun x _ => x) Hlibm).
Defined.

(** ** Stable sorting on a key *)

Section Sorting.

Context {A : Type}.
Implicit Types (x y : R * A) (l : list (R * A)).

Lemma insert_by_key_perm x l : insert_by_key x l ≡ₚ x :: l.
Proof.
  induction l as [| y l IH]; simpl; [done |].
  destruct (Rlt_dec y.1 x.1); [| done].
  rewrite IH. apply Permutation_swap.
Qed.

Lemma sort_by_key_perm l : sort_by_key l ≡ₚ l.
Proof.
  induction l as [| x l IH]; simpl; [done |].
  by rewrite insert_by_key_perm, IH.
Qed.

Lemma insert_by_key_sorted x l :
  StronglySorted key_le l -> StronglySorted key_le (insert_by_key x l).
Proof.
  induction 1 as [| y l Hl IH Hy]; simpl.
  - repeat constructor.
  - destruct (Rlt_dec y.1 x.1) as [Hlt | Hge].
    + constructor; [done |].
      rewrite insert_by_key_perm. constructor; [| done].
      unfold key_le. lra.
    + assert (key_le x y) as Hxy by (unfold key_le; lra).
      constructor; [by constructor |]. constructor; [done |].
      eapply Forall_impl; [exact Hy |]. unfold key_le in *.
      intros z Hz. simpl in Hz. lra.
Qed.

Lemma sort_by_key_sorted l : StronglySorted key_le (sort_by_key l).
Proof.
  induction l as [| x l IH]; simpl; [constructor |].
  by apply insert_by_key_sorted.
Qed.



End Sorting.

Section ListSort.

Context {A : Type} (key : A -> result R) (k : A -> R).

Lemma mapM_keys l :
  Forall (fun x => key x = Ok (k x)) l ->
  mapM (fun x => v ← key x; mret (v, x)) l = Ok ((fun x => (k x, x)) <$> l).
Proof.
  induction 1 as [| x l Hx _ IH]; [done |].
  cbn [mapM]. cbn [mapM] in IH. rewrite Hx. cbn. by rewrite IH.
Qed.

Lemma list_sort_ok l :
  Forall (fun x => key x = Ok (k x)) l -> list_sort key l = Ok (sorted_on k l).
Proof. intros Hl. unfold list_sort. by rewrite mapM_keys. Qed.

Lemma sorted_on_decorated l :
  Forall (fun p => p.1 = k p.2) (sort_by_key ((fun x => (k x, x)) <$> l)).
Proof.
  rewrite sort_by_key_perm. apply Forall_fmap, Forall_forall. done.
Qed.

Lemma sorted_on_perm l : sorted_on k l ≡ₚ l.
Proof.
  unfold sorted_on. rewrite sort_by_key_perm, <- list_fmap_compose.
  by rewrite list_fmap_id.
Qed.

Lemma sorted_on_sorted l :
  StronglySorted (fun a b => k a <= k b) (sorted_on k l).
Proof.
  unfold sorted_on.
  pose proof (sorted_on_decorated l) as Hdec.
  pose proof (sort_by_key_sorted ((fun x => (k x, x)) <$> l)) as Hs.
  induction Hs as [| p s Hs IH Hp]; [constructor |].
  apply Forall_cons in Hdec as [Hp1 Hdec].
  cbn. constructor; [by apply IH |].
  apply Forall_fmap, Forall_forall. intros q Hq. simpl.
  rewrite Forall_forall in Hp, Hdec.
  specialize (Hp q Hq). specialize (Hdec q Hq).
  unfold key_le in Hp. lra.
Qed.



End ListSort.

(** ** Proximity filter *)

Section FindNearby.

Variables center_lat center_lon radius_km : R.

Lemma loop_usable locations nearby :
  Forall usable locations ->
  find_nearby_loop center_lat center_lon radius_km locations nearby
  = Ok (nearby ++ omap (kept center_lat center_lon radius_km) locations).
Proof.
  intros Hall. revert nearby.
  induction Hall as [| location rest Hloc _ IH]; intros nearby.
  - by rewrite app_nil_r.
  - cbn [find_nearby_loop omap list_omap].
    unfold usable, lacks_coordinates, kept, numeric_coordinates in *.
    destruct (dict_get location "latitude" VNone) as [| lat | s1];
      destruct (dict_get location "longitude" VNone) as [| lon | s2];
      cbn in *;
      try (by rewrite IH);
      try (by destruct Hloc as [? | [? ?]]).
    destruct (Rle_dec _ _).
    + rewrite IH. by rewrite <- app_assoc.
    + by rewrite IH.
Qed.

Lemma loop_skips_lacking locations nearby :
  find_nearby_loop center_lat center_lon radius_km locations nearby
  = find_nearby_loop center_lat center_lon radius_km
      (filter (fun location => lacks_coordinates location = false) locations)
      nearby.
Proof.
  revert nearby. induction locations as [| location rest IH]; intros nearby.
  - done.
  - rewrite filter_cons. cbn [find_nearby_loop].
    unfold lacks_coordinates.
    destruct (is_None _ || is_None _) eqn:Hlack.
    + rewrite decide_False by done. apply IH.
    + rewrite decide_True by done. cbn [find_nearby_loop]. rewrite Hlack.
      destruct (as_float _); [| done]. cbn.
      destruct (as_float _); [| done]. cbn.
      destruct (Rle_dec _ _); apply IH.
Qed.

Lemma nearby_record_key lat lon location :
  nearby_record center_lat center_lon lat lon location !! "distance_km"
  = Some (VNum (round_to (_calculate_distance center_lat center_lon lat lon) 2)).
Proof.
  unfold nearby_record.
  rewrite !lookup_insert_ne by done. apply lookup_insert_eq.
Qed.

Lemma kept_key location record :
  kept center_lat center_lon radius_km location = Some record ->
  (v ← getitem record "distance_km"; as_float v) = Ok (distance_km_of record).
Proof.
  unfold kept. destruct (numeric_coordinates location) as [[lat lon] |]; [| done].
  destruct (Rle_dec _ _); [| done]. intros [= <-].
  unfold getitem, distance_km_of. by rewrite nearby_record_key.
Qed.

Lemma find_nearby_usable locations :
  Forall usable locations ->
  find_nearby center_lat center_lon locations radius_km
  = Ok (sorted_on distance_km_of
          (omap (kept center_lat center_lon radius_km) locations)).
Proof.
  intros Hall. unfold find_nearby. rewrite loop_usable by done. cbn.
  apply list_sort_ok, Forall_forall.
  intros record (location & _ & Hkept)%list_elem_of_omap.
  by eapply kept_key.
Qed.

(** The loop raises as soon as a location has a coordinate that is not a
    number; if it returns, every location was usable. *)
Lemma loop_ok_usable locations nearby result :
  find_nearby_loop center_lat center_lon radius_km locations nearby
  = Ok result ->
  Forall usable locations.
Proof.
  revert nearby.
  induction locations as [| location rest IH]; intros nearby Hok;
    [constructor |].
  cbn [find_nearby_loop] in Hok.
  cut (usable location /\ Forall usable rest).
  { intros [? ?]. by constructor. }
  unfold usable at 1. unfold lacks_coordinates, numeric_coordinates.
  destruct (dict_get location "latitude" VNone) as [| lat | s1];
    destruct (dict_get location "longitude" VNone) as [| lon | s2];
    cbn in Hok; try discriminate;
    try (split; [by left | by eapply IH]).
  split; [right; by eexists |].
  destruct (Rle_dec _ _); by eapply IH.
Qed.

Lemma find_nearby_returns locations :
  Forall usable locations
  <-> exists nearby,
        find_nearby center_lat center_lon locations radius_km = Ok nearby.
Proof.
  split.
  - intros Hall. eexists. by apply find_nearby_usable.
  - intros [nearby Hok]. unfold find_nearby in Hok.
    destruct (find_nearby_loop _ _ _ _ _) as [result |] eqn:Hloop;
      [| discriminate].
    by eapply loop_ok_usable.
Qed.

Lemma find_nearby_ok_inv locations nearby :
  find_nearby center_lat center_lon locations radius_km = Ok nearby ->
  nearby = sorted_on distance_km_of
             (omap (kept center_lat center_lon radius_km) locations).
Proof.
  intros Hok.
  assert (Forall usable locations) as Hall
    by (apply find_nearby_returns; eauto).
  rewrite find_nearby_usable in Hok by done. by injection Hok.
Qed.

End FindNearby.

(** C3, as stated, fails: the radius test is made on the unrounded
    distance while the record carries the distance rounded to two
    decimals.  A candidate about 6.7 m north of the center passes a radius
    of 0.009 km and is returned with distance_km = 0.01. *)
Lemma nearby_record_beyond_radius :
  let location : dict :=
    {[ "latitude" := VNum 0.00006; "longitude" := VNum 0 ]} in
  exists record : dict,
    find_nearby 0 0 [location] 0.009 = Ok [record]
    /\ record !! "distance_km" = Some (VNum 0.01)
    /\ ~ (0.01 <= 0.009).
Proof.
  intros location.
  assert (numeric_coordinates location = Some (0.00006, 0)) as Hnum
    by reflexivity.
  assert (_calculate_distance 0 0 0.00006 0 = 6371 * radians 0.00006) as Hd.
  { rewrite distance_along_meridian by lra. f_equal. f_equal. lra. }
  pose proof PI2_3_2 as Hpi3. pose proof PI_4 as Hpi4.
  assert (_calculate_distance 0 0 0.00006 0 <= 0.009) as Hle.
  { rewrite Hd. unfold radians. lra. }
  assert (round_to (_calculate_distance 0 0 0.00006 0) 2 = 0.01) as Hround.
  { unfold round_to. rewrite (round_near _ 1).
    - simpl. lra.
    - rewrite Hd. unfold radians. simpl. lra. }
  exists (nearby_record 0 0 0.00006 0 location).
  split; [| split; [| lra]].
  - rewrite find_nearby_usable.
    + cbn [omap list_omap]. unfold kept. rewrite Hnum.
      destruct (Rle_dec _ _); [done | lra].
    + constructor; [| constructor]. right. by rewrite Hnum.
  - by rewrite nearby_record_key, Hround.
Qed.

(** C3, amended: every record find_nearby returns stems from a candidate
    whose unrounded distance is at most the radius (the boundary is
    inclusive: every candidate within the radius is returned) and carries
    that distance rounded to two decimals, so its distance_km is at most
    the radius plus 0.005; candidates lacking latitude or longitude are
    excluded without raising an error: the outcome is the one for the
    list without them, and a list of such candidates only gives the
    empty result. *)
Theorem find_nearby_keeps_candidates_within_radius :
  forall (center_lat center_lon radius_km : R) (locations : list dict),
    find_nearby center_lat center_lon locations radius_km
    = find_nearby center_lat center_lon
        (filter (fun location => lacks_coordinates location = false)
                locations)
        radius_km
    /\ (Forall (fun location => lacks_coordinates location = true) locations ->
        find_nearby center_lat center_lon locations radius_km = Ok [])
    /\ forall nearby : list dict,
         find_nearby center_lat center_lon locations radius_km = Ok nearby ->
         (forall record, record ∈ nearby ->
            exists location lat lon,
              location ∈ locations
              /\ numeric_coordinates location = Some (lat, lon)
              /\ _calculate_distance center_lat center_lon lat lon
                 <= radius_km
              /\ record = nearby_record center_lat center_lon lat lon location
              /\ record !! "distance_km"
                 = Some (VNum (round_to (_calculate_distance
                                           center_lat center_lon lat lon) 2))
              /\ round_to (_calculate_distance center_lat center_lon lat lon) 2
                 <= radius_km + 0.005)
         /\ (forall location lat lon,
               location ∈ locations ->
               numeric_coordinates location = Some (lat, lon) ->
               _calculate_distance center_lat center_lon lat lon
               <= radius_km ->
               nearby_record center_lat center_lon lat lon location ∈ nearby).
Proof.
  intros center_lat center_lon radius_km locations.
  split; [unfold find_nearby; by rewrite loop_skips_lacking |].
  split.
  { intros Hall. rewrite find_nearby_usable.
    - assert (omap (kept center_lat center_lon radius_km) locations = [])
        as ->; [| done].
      induction Hall as [| location rest Hl _ IH]; [done |].
      cbn [omap list_omap]. unfold kept at 1, numeric_coordinates.
      unfold lacks_coordinates in Hl.
      destruct (dict_get location "latitude" VNone);
        destruct (dict_get location "longitude" VNone); done.
    - eapply Forall_impl; [exact Hall |]. intros location Hl. by left. }
  intros nearby ->%find_nearby_ok_inv. split.
  - intros record Hin. rewrite sorted_on_perm in Hin.
    apply list_elem_of_omap in Hin as (location & Hloc & Hkept).
    unfold kept in Hkept.
    destruct (numeric_coordinates location) as [[lat lon] |] eqn:Hnum;
      [| done].
    destruct (Rle_dec _ _) as [Hle |]; [| done].
    injection Hkept as <-.
    exists location, lat, lon. repeat split; try done.
    + apply nearby_record_key.
    + pose proof (round_to_error
                    (_calculate_distance center_lat center_lon lat lon) 2)
        as [_ Hup].
      simpl in Hup. lra.
  - intros location lat lon Hloc Hnum Hle.
    rewrite sorted_on_perm. apply list_elem_of_omap.
    exists location. split; [done |]. unfold kept. rewrite Hnum.
    by destruct (Rle_dec _ _).
Qed.

Lemma find_nearby_keeps_candidates_within_radius_witness :
  let unnamed : dict := {[ "name" := VStr "no position" ]} in
  let north : dict :=
    {[ "latitude" := VNum 0.00006; "longitude" := VNum 0 ]} in
  find_nearby 0 0 [unnamed] 0.009 = Ok []
  /\ find_nearby 0 0 [unnamed; north] 0.009
     = Ok [nearby_record 0 0 0.00006 0 north]
  /\ exists location lat lon,
       location ∈ [unnamed; north]
       /\ numeric_coordinates location = Some (lat, lon)
       /\ _calculate_distance 0 0 lat lon <= 0.009
       /\ nearby_record 0 0 0.00006 0 north
          = nearby_record 0 0 lat lon location
       /\ nearby_record 0 0 0.00006 0 north !! "distance_km"
          = Some (VNum (round_to (_calculate_distance 0 0 lat lon) 2))
       /\ round_to (_calculate_distance 0 0 lat lon) 2 <= 0.009 + 0.005.
Proof.
  intros unnamed north.
  assert (_calculate_distance 0 0 0.00006 0 <= 0.009) as Hle.
  { rewrite distance_along_meridian by lra.
    pose proof PI_4. unfold radians. lra. }
  assert (find_nearby 0 0 [unnamed; north] 0.009
          = Ok [nearby_record 0 0 0.00006 0 north]) as Hok.
  { rewrite find_nearby_usable.
    - cbn [omap list_omap].
      replace (kept 0 0 0.009 unnamed) with (@None dict) by reflexivity.
      unfold kept.
      replace (numeric_coordinates north) with (Some (0.00006, 0))
        by reflexivity.
      destruct (Rle_dec _ _); [done | lra].
    - constructor; [by left |]. constructor; [| constructor].
      right. by eexists. }
  split; [| split; [exact Hok |]].
  - apply (proj1 (proj2 (find_nearby_keeps_candidates_within_radius
                           0 0 0.009 [unnamed]))).
    by constructor.
  - destruct (find_nearby_keeps_candidates_within_radius 0 0 0.009
                [unnamed; north]) as (_ & _ & Hall).
    destruct (Hall _ Hok) as [Hin _].
    apply Hin. by apply list_elem_of_singleton.
Defined.



(** * Further properties of the routing code *)

(** ** Distance: bound, arcs, full turns *)

Section DistanceFacts.

Lemma atan2_le_PI2 y x : 0 <= y -> 0 <= x -> atan2 y x <= PI / 2.
Proof.
  intros Hy Hx. unfold atan2. pose proof PI_RGT_0.
  destruct (Rlt_dec 0 x).
  - left. apply atan_bound.
  - destruct (Rlt_dec x 0); [lra |].
    destruct (Rlt_dec 0 y); [lra |].
    destruct (Rlt_dec y 0); lra.
Qed.

Lemma distance_le_half_turn lat1 lon1 lat2 lon2 :
  _calculate_distance lat1 lon1 lat2 lon2 <= 6371 * PI.
Proof.
  rewrite distance_unfold.
  pose proof (atan2_le_PI2 (sqrt (haversine_a lat1 lon1 lat2 lon2))
                (sqrt (1 - haversine_a lat1 lon1 lat2 lon2))
                (sqrt_pos _) (sqrt_pos _)).
  lra.
Qed.

Lemma haversine_a_antipodal lat lon :
  haversine_a lat lon (- lat) (lon + 180) = 1.
Proof.
  unfold haversine_a.
  replace (radians (- lat - lat) / 2) with (- radians lat)
    by (unfold radians; lra).
  replace (radians (lon + 180 - lon) / 2) with (PI / 2)
    by (unfold radians; lra).
  replace (radians (- lat)) with (- radians lat) by (unfold radians; lra).
  rewrite sin_neg, cos_neg, sin_PI2.
  pose proof (sin2_cos2 (radians lat)) as H. unfold Rsqr in H.
  simpl. lra.
Qed.

Lemma distance_antipodal lat lon :
  _calculate_distance lat lon (- lat) (lon + 180) = 6371 * PI.
Proof.
  rewrite distance_unfold, haversine_a_antipodal.
  replace (1 - 1) with 0 by lra.
  rewrite sqrt_1, sqrt_0, atan2_pos_0; lra.
Qed.

(** On the equator the haversine term only sees the longitudes. *)
Lemma distance_along_equator lon1 lon2 :
  0 <= lon2 - lon1 <= 180 ->
  _calculate_distance 0 lon1 0 lon2 = 6371 * radians (lon2 - lon1).
Proof.
  intros [Hlo Hhi]. rewrite distance_unfold. pose proof PI_RGT_0 as Hpi.
  set (t := radians (lon2 - lon1) / 2).
  assert (0 <= t <= PI / 2) as [Ht0 Ht1] by (unfold t, radians; split; nra).
  assert (haversine_a 0 lon1 0 lon2 = sin t ^ 2) as ->.
  { unfold haversine_a. fold t.
    replace (radians (0 - 0) / 2) with 0 by (unfold radians; lra).
    replace (radians 0) with 0 by (unfold radians; lra).
    rewrite sin_0, cos_0. simpl. lra. }
  assert (1 - sin t ^ 2 = cos t ^ 2) as ->.
  { pose proof (sin2_cos2 t) as H. unfold Rsqr in H. simpl. lra. }
  rewrite !sqrt_pow2.
  - rewrite atan2_sin_cos by lra. unfold t. lra.
  - apply cos_ge_0; lra.
  - apply sin_ge_0; lra.
Qed.

Lemma cos_full_turns x (k : Z) : cos (x + 2 * IZR k * PI) = cos x.
Proof.
  destruct (Z_le_gt_dec 0 k) as [Hk | Hk].
  - rewrite <- (Z2Nat.id k Hk), <- INR_IZR_INZ. apply cos_period.
  - rewrite <- (cos_period (x + 2 * IZR k * PI) (Z.to_nat (- k))).
    rewrite INR_IZR_INZ, Z2Nat.id, opp_IZR by lia. f_equal. lra.
Qed.

Lemma sin_full_turns x (k : Z) : sin (x + 2 * IZR k * PI) = sin x.
Proof.
  destruct (Z_le_gt_dec 0 k) as [Hk | Hk].
  - rewrite <- (Z2Nat.id k Hk), <- INR_IZR_INZ. apply sin_period.
  - rewrite <- (sin_period (x + 2 * IZR k * PI) (Z.to_nat (- k))).
    rewrite INR_IZR_INZ, Z2Nat.id, opp_IZR by lia. f_equal. lra.
Qed.

Lemma radians_full_turns x (k : Z) :
  radians (x + 360 * IZR k) = radians x + 2 * IZR k * PI.
Proof. unfold radians. lra. Qed.

Lemma haversine_a_full_turns lat1 lon1 lat2 lon2 lon1' lon2' (k : Z) :
  lon2' - lon1' = lon2 - lon1 + 360 * IZR k ->
  haversine_a lat1 lon1' lat2 lon2' = haversine_a lat1 lon1 lat2 lon2.
Proof.
  intros Hlon. unfold haversine_a.
  by rewrite Hlon, !sin_half_sqr, radians_full_turns, cos_full_turns.
Qed.

End DistanceFacts.



(** X1: the distance of any two coordinates lies between 0 and half the
    circumference of the sphere, 6371 * pi km, and that maximum is
    reached on the equator for two points half a turn apart. *)
Theorem distance_at_most_half_circumference :
  forall lat1 lon1 lat2 lon2 : R,
    0 <= _calculate_distance lat1 lon1 lat2 lon2 <= 6371 * PI
    /\ _calculate_distance 0 lon1 0 (lon1 + 180) = 6371 * PI.
Proof.
  intros. split; [split |].
  - apply distance_nonneg.
  - apply distance_le_half_turn.
  - rewrite distance_along_equator by lra. unfold radians. lra.
Qed.

(** X2: along a meridian, and along the equator, the distance is the arc
    length: 6371 km times the angle between the two points in radians,
    as long as they are at most 180 degrees apart. *)
Theorem distance_is_arc_length_on_meridian_and_equator :
  forall a b lon : R,
    Rabs (b - a) <= 180 ->
    _calculate_distance a lon b lon = 6371 * radians (Rabs (b - a))
    /\ _calculate_distance 0 a 0 b = 6371 * radians (Rabs (b - a)).
Proof.
  intros a b lon Habs.
  destruct (Rle_dec a b) as [Hle | Hgt].
  - rewrite Rabs_right in * by lra.
    split; [apply distance_along_meridian | apply distance_along_equator];
      lra.
  - rewrite Rabs_left in * by lra.
    rewrite (distance_sym a lon b lon), (distance_sym 0 a 0 b).
    replace (- (b - a)) with (a - b) by lra.
    split; [apply distance_along_meridian | apply distance_along_equator];
      lra.
Qed.

Lemma distance_is_arc_length_on_meridian_and_equator_witness :
  _calculate_distance 10 5 (- 80) 5 = 6371 * radians (Rabs (- 80 - 10))
  /\ _calculate_distance 0 10 0 (- 80) = 6371 * radians (Rabs (- 80 - 10)).
Proof.
  apply (distance_is_arc_length_on_meridian_and_equator 10 (- 80) 5).
  rewrite Rabs_left; lra.
Defined.

(** X3: the distance depends on the two longitudes only through their
    difference, and whole turns of 360 degrees in it do not matter. *)
Theorem distance_ignores_full_turns :
  forall (lat1 lon1 lat2 lon2 lon1' lon2' : R) (k : Z),
    lon2' - lon1' = lon2 - lon1 + 360 * IZR k ->
    _calculate_distance lat1 lon1' lat2 lon2'
    = _calculate_distance lat1 lon1 lat2 lon2.
Proof.
  intros lat1 lon1 lat2 lon2 lon1' lon2' k Hlon.
  rewrite !distance_unfold.
  by rewrite (haversine_a_full_turns lat1 lon1 lat2 lon2 lon1' lon2' k).
Qed.

Lemma distance_ignores_full_turns_witness :
  _calculate_distance 10 (- 170) 20 190 = _calculate_distance 10 0 20 0.
Proof.
  apply (distance_ignores_full_turns 10 0 20 0 (- 170) 190 1). lra.
Defined.

(** ** Bearing along the axes, sectors of the compass *)

Section BearingFacts.

(** Rewrites the two arguments of the [atan2] in the goal. *)
Ltac atan2_args x' y' :=
  match goal with
  | |- context [atan2 ?x ?y] =>
      replace y with y' by lra; replace x with x' by lra
  end.

Lemma atan2_0_neg x : x < 0 -> atan2 0 x = PI.
Proof.
  intros Hx. unfold atan2.
  destruct (Rlt_dec 0 x); [lra |].
  destruct (Rlt_dec x 0); [| lra].
  destruct (Rle_dec 0 0); [| lra].
  replace (0 / x) with 0 by (field; lra). rewrite atan_0. lra.
Qed.

Lemma atan2_neg_0 y : y < 0 -> atan2 y 0 = - (PI / 2).
Proof.
  intros Hy. unfold atan2.
  destruct (Rlt_dec 0 0); [lra |].
  destruct (Rlt_dec 0 y); [lra |].
  destruct (Rlt_dec y 0); [done | lra].
Qed.

Lemma degrees_PI : degrees PI = 180.
Proof. unfold degrees. field. apply PI_neq0. Qed.

(** On a meridian the second [atan2] argument is the sine of the
    difference of the latitudes, the first one is 0. *)
Lemma bearing_on_meridian lat1 lat2 lon :
  _calculate_bearing lat1 lon lat2 lon
  = fmod (degrees (atan2 0 (sin (radians (lat2 - lat1)))) + 360) 360.
Proof.
  unfold _calculate_bearing.
  replace (radians (lon - lon)) with 0 by (unfold radians; lra).
  replace (radians (lat2 - lat1)) with (radians lat2 - radians lat1)
    by (unfold radians; lra).
  rewrite sin_0, cos_0, sin_minus.
  by atan2_args 0
       (sin (radians lat2) * cos (radians lat1)
        - cos (radians lat2) * sin (radians lat1)).
Qed.

(** On the equator the first [atan2] argument is the sine of the
    difference of the longitudes, the second one is 0. *)
Lemma bearing_on_equator lon1 lon2 :
  _calculate_bearing 0 lon1 0 lon2
  = fmod (degrees (atan2 (sin (radians (lon2 - lon1))) 0) + 360) 360.
Proof.
  unfold _calculate_bearing.
  replace (radians 0) with 0 by (unfold radians; lra).
  rewrite sin_0, cos_0.
  by atan2_args (sin (radians (lon2 - lon1))) 0.
Qed.

Lemma sin_radians_pos x : 0 < x < 180 -> 0 < sin (radians x).
Proof.
  intros [Hlo Hhi]. pose proof PI_RGT_0.
  apply sin_gt_0; unfold radians; nra.
Qed.

Lemma sin_radians_neg x : - 180 < x < 0 -> sin (radians x) < 0.
Proof.
  intros [Hlo Hhi]. pose proof PI_RGT_0.
  apply sin_lt_0_var; unfold radians; nra.
Qed.

End BearingFacts.

(** X4: on a meridian the bearing is 0 (North) towards the higher
    latitude and 180 (South) towards the lower one; on the equator it is
    90 (East) towards the higher longitude and 270 (West) towards the
    lower one, for points less than 180 degrees apart. *)
Theorem bearing_along_meridian_and_equator :
  forall a b lon : R,
    (0 < b - a < 180 ->
     _calculate_bearing a lon b lon = 0
     /\ _bearing_to_direction (_calculate_bearing a lon b lon)
        = "North"%string
     /\ _calculate_bearing 0 a 0 b = 90
     /\ _bearing_to_direction (_calculate_bearing 0 a 0 b) = "East"%string)
    /\ (- 180 < b - a < 0 ->
        _calculate_bearing a lon b lon = 180
        /\ _bearing_to_direction (_calculate_bearing a lon b lon)
           = "South"%string
        /\ _calculate_bearing 0 a 0 b = 270
        /\ _bearing_to_direction (_calculate_bearing 0 a 0 b)
           = "West"%string).
Proof.
  intros a b lon. split; intros Hab.
  - pose proof (sin_radians_pos _ Hab) as Hs.
    assert (_calculate_bearing a lon b lon = 0) as ->.
    { rewrite bearing_on_meridian, atan2_0_nonneg, degrees_0 by lra.
      apply fmod_small. lra. }
    assert (_calculate_bearing 0 a 0 b = 90) as ->.
    { rewrite bearing_on_equator, atan2_pos_0, degrees_PI2 by done.
      apply fmod_small. lra. }
    repeat split; [label_of_multiple 0%Z | label_of_multiple 2%Z].
  - pose proof (sin_radians_neg _ Hab) as Hs.
    assert (_calculate_bearing a lon b lon = 180) as ->.
    { rewrite bearing_on_meridian, atan2_0_neg, degrees_PI by done.
      apply fmod_small. lra. }
    assert (_calculate_bearing 0 a 0 b = 270) as ->.
    { rewrite bearing_on_equator, atan2_neg_0 by done.
      replace (degrees (- (PI / 2)) + 360) with 270
        by (unfold degrees; field; apply PI_neq0).
      apply fmod_id. lra. }
    repeat split; [label_of_multiple 4%Z | label_of_multiple 6%Z].
Qed.

Lemma bearing_along_meridian_and_equator_witness :
  (_calculate_bearing 40 (- 74) 42 (- 74) = 0
   /\ _calculate_bearing 0 40 0 42 = 90)
  /\ (_calculate_bearing 42 (- 74) 40 (- 74) = 180
      /\ _calculate_bearing 0 42 0 40 = 270).
Proof.
  split.
  - destruct (proj1 (bearing_along_meridian_and_equator 40 42 (- 74)))
      as (Hn & _ & He & _); [lra |].
    exact (conj Hn He).
  - destruct (proj2 (bearing_along_meridian_and_equator 42 40 (- 74)))
      as (Hs & _ & Hw & _); [lra |].
    exact (conj Hs Hw).
Defined.

Section DirectionFacts.

Lemma floor_plus_IZR x (k : Z) : floor (x + IZR k) = (floor x + k)%Z.
Proof.
  apply floor_unique. destruct (floor_spec x). rewrite plus_IZR. lra.
Qed.

(** Shifting by an even integer commutes with [round]. *)
Lemma round_plus_even x (k : Z) :
  Z.even k = true -> round (x + IZR k) = (round x + k)%Z.
Proof.
  intros Hk. unfold round. rewrite floor_plus_IZR, plus_IZR.
  replace (x + IZR k - (IZR (floor x) + IZR k)) with (x - IZR (floor x))
    by lra.
  rewrite Z.even_add, Hk.
  repeat destruct (Rlt_dec _ _); try lia.
  destruct (Z.even (floor x)); simpl; lia.
Qed.

Lemma direction_near_multiple (n : Z) b :
  45 * IZR n - 22.5 < b < 45 * IZR n + 22.5 ->
  _bearing_to_direction b = nth (Z.to_nat (n mod 8)) directions ""%string.
Proof.
  intros [Hlo Hhi]. unfold _bearing_to_direction.
  rewrite (round_near _ n); [done |]. split.
  - apply (Rmult_lt_reg_r 45); [lra |].
    replace (b / 45 * 45) with b by field. lra.
  - apply (Rmult_lt_reg_r 45); [lra |].
    replace (b / 45 * 45) with b by field. lra.
Qed.

Lemma direction_full_turns b (k : Z) :
  _bearing_to_direction (b + 360 * IZR k) = _bearing_to_direction b.
Proof.
  unfold _bearing_to_direction.
  replace ((b + 360 * IZR k) / 45) with (b / 45 + IZR (8 * k))
    by (rewrite mult_IZR; field).
  rewrite round_plus_even by (rewrite Z.even_mul; done).
  f_equal. f_equal.
  rewrite (Z.mul_comm 8 k). apply Z.mod_add. lia.
Qed.

End DirectionFacts.

(** X5: each label owns the bearings closer than 22.5 degrees to its
    multiple of 45: for every integer n (taken modulo 8), a bearing
    strictly between 45 n - 22.5 and 45 n + 22.5 gets the n-th label; in
    particular the bearings above 337.5 are North again. *)
Theorem direction_sector :
  forall (n : Z) (bearing : R),
    45 * IZR n - 22.5 < bearing < 45 * IZR n + 22.5 ->
    _bearing_to_direction bearing
    = nth (Z.to_nat (n mod 8)) directions ""%string.
Proof. exact direction_near_multiple. Qed.

Lemma direction_sector_witness :
  _bearing_to_direction 350 = "North"%string
  /\ _bearing_to_direction 100 = "East"%string.
Proof.
  split.
  - apply (direction_sector 8 350). lra.
  - apply (direction_sector 2 100). lra.
Defined.

(** X6: the label is periodic: adding whole turns of 360 degrees to a
    bearing (also negative ones) does not change it. *)
Theorem direction_ignores_full_turns :
  forall (bearing : R) (k : Z),
    _bearing_to_direction (bearing + 360 * IZR k)
    = _bearing_to_direction bearing.
Proof. exact direction_full_turns. Qed.

(** ** Route estimate: factors, steps, texts *)

Section RouteFacts.

Lemma route_factor_cases mode :
  (mode = "driving"%string /\ dict_get route_factor mode 1.3 = 1.3)
  \/ (mode = "walking"%string /\ dict_get route_factor mode 1.3 = 1.2)
  \/ (mode = "cycling"%string /\ dict_get route_factor mode 1.3 = 1.25)
  \/ (mode <> "driving"%string /\ mode <> "walking"%string
      /\ mode <> "cycling"%string /\ dict_get route_factor mode 1.3 = 1.3).
Proof.
  destruct (decide (mode = "driving"%string)) as [-> | Hd]; [by left |].
  destruct (decide (mode = "walking"%string)) as [-> | Hw];
    [right; by left |].
  destruct (decide (mode = "cycling"%string)) as [-> | Hc];
    [do 2 right; by left |].
  do 3 right. unfold dict_get. by rewrite route_factor_other.
Qed.

Lemma avg_speeds_cases mode :
  (mode = "driving"%string /\ dict_get avg_speeds mode 60 = 60)
  \/ (mode = "walking"%string /\ dict_get avg_speeds mode 60 = 5)
  \/ (mode = "cycling"%string /\ dict_get avg_speeds mode 60 = 20)
  \/ (mode <> "driving"%string /\ mode <> "walking"%string
      /\ mode <> "cycling"%string /\ dict_get avg_speeds mode 60 = 60).
Proof.
  destruct (decide (mode = "driving"%string)) as [-> | Hd]; [by left |].
  destruct (decide (mode = "walking"%string)) as [-> | Hw];
    [right; by left |].
  destruct (decide (mode = "cycling"%string)) as [-> | Hc];
    [do 2 right; by left |].
  do 3 right. unfold dict_get. by rewrite avg_speeds_other.
Qed.

Lemma route_factor_bounds mode :
  1.2 <= dict_get route_factor mode 1.3 <= 1.3.
Proof.
  destruct (route_factor_cases mode)
    as [[_ ->] | [[_ ->] | [[_ ->] | (_ & _ & _ & ->)]]]; lra.
Qed.

(** The divisor of the duration is never 0. *)
Lemma avg_speeds_pos mode : 5 <= dict_get avg_speeds mode 60 <= 60.
Proof.
  destruct (avg_speeds_cases mode)
    as [[_ ->] | [[_ ->] | [[_ ->] | (_ & _ & _ & ->)]]]; lra.
Qed.

End RouteFacts.

(** X7: whatever the mode string, the route distance is the
    straight-line distance times a factor between 1.2 and 1.3, rounded
    to two decimals: it is never negative, never below the walking
    distance and never above the driving distance of the same pair, and
    never below the rounded straight-line distance. *)
Theorem route_distance_between_walking_and_driving :
  forall (start_lat start_lon end_lat end_lon : R) (mode : string),
    let km m :=
      Route.distance_km
        (calculate_route start_lat start_lon end_lat end_lon m) in
    let distance :=
      _calculate_distance start_lat start_lon end_lat end_lon in
    0 <= round_to distance 2 <= km "walking"%string
    /\ km "walking"%string <= km mode <= km "driving"%string
    /\ km "walking"%string <= km "cycling"%string <= km "driving"%string
    /\ distance * 1.2 - 0.005 <= km mode <= distance * 1.3 + 0.005.
Proof.
  intros a b c d mode km distance. unfold km, distance.
  pose proof (distance_nonneg a b c d) as Hd.
  pose proof (route_factor_bounds mode) as [Hlo Hhi].
  assert (forall m,
             Route.distance_km (calculate_route a b c d m)
             = round_to (_calculate_distance a b c d
                         * dict_get route_factor m 1.3) 2) as Hkm by done.
  rewrite !Hkm.
  replace (dict_get route_factor "walking" 1.3) with 1.2 by reflexivity.
  replace (dict_get route_factor "cycling" 1.3) with 1.25 by reflexivity.
  replace (dict_get route_factor "driving" 1.3) with 1.3 by reflexivity.
  pose proof (round_to_error
                (_calculate_distance a b c d * dict_get route_factor mode 1.3)
                2) as [Hel Heh].
  simpl in Hel, Heh.
  repeat split; try (apply round_to_nonneg; lra);
    try (apply round_to_mono; nra); nra.
Qed.

(** X8: a route always has exactly three steps; their distances are one
    tenth, eight tenths and one tenth of the unrounded route distance, so
    they add up to it and differ from the reported distance_km by at
    most 0.005. *)
Theorem route_steps_add_up :
  forall (start_lat start_lon end_lat end_lon : R) (mode : string),
    let route := calculate_route start_lat start_lon end_lat end_lon mode in
    let estimated_distance :=
      _calculate_distance start_lat start_lon end_lat end_lon
      * dict_get route_factor mode 1.3 in
    exists head middle last : Step.t,
      Route.steps route = [head; middle; last]
      /\ Step.distance_km middle = 8 * Step.distance_km head
      /\ Step.distance_km last = Step.distance_km head
      /\ Step.distance_km head + Step.distance_km middle
         + Step.distance_km last = estimated_distance
      /\ Rabs (Route.distance_km route
               - (Step.distance_km head + Step.distance_km middle
                  + Step.distance_km last)) <= 0.005.
Proof.
  intros a b c d mode route est.
  do 3 eexists. split; [reflexivity |]. simpl.
  fold est. repeat split; try lra.
  replace (est * 0.1 + est * 0.8 + est * 0.1) with est by lra.
  pose proof (round_to_error est 2) as [Hlo Hhi]. simpl in Hlo, Hhi.
  apply Rabs_le. lra.
Qed.

Section DurationText.

Lemma int_nonneg x : 0 <= x -> int x = floor x.
Proof. intros Hx. unfold int. by destruct (Rle_dec 0 x). Qed.

Lemma floor_nonneg x : 0 <= x -> (0 <= floor x)%Z.
Proof.
  intros Hx. destruct (floor_spec x) as [_ Hhi].
  assert (IZR (- 1) < IZR (floor x)) as H by lra.
  apply lt_IZR in H. lia.
Qed.

Lemma floor_mono x y : x <= y -> (floor x <= floor y)%Z.
Proof.
  intros Hxy. destruct (floor_spec x) as [Hx _], (floor_spec y) as [_ Hy].
  assert (IZR (floor x) < IZR (floor y + 1)) as H
    by (rewrite plus_IZR; lra).
  apply lt_IZR in H. lia.
Qed.

(** Hours and minutes of a non-negative number of minutes. *)
Lemma hours_minutes t :
  0 <= t ->
  int (floordiv t 60) = floor (t / 60)
  /\ int (fmod t 60) = (floor t - 60 * floor (t / 60))%Z
  /\ (0 <= floor t - 60 * floor (t / 60) <= 59)%Z.
Proof.
  intros Ht. unfold floordiv, fmod.
  assert (0 <= t / 60) as Hq by lra.
  pose proof (floor_nonneg _ Hq) as Hh.
  pose proof (fmod_range t 60 ltac:(lra)) as [Hm0 Hm1]. unfold fmod in *.
  split; [| split].
  - rewrite int_nonneg, floor_IZR; [done |]. by apply IZR_le.
  - rewrite int_nonneg by done.
    replace (t - 60 * IZR (floor (t / 60)))
      with (t + IZR (- (60 * floor (t / 60))))
      by (rewrite opp_IZR, mult_IZR; lra).
    rewrite floor_plus_IZR. lia.
  - assert (floor (t - 60 * IZR (floor (t / 60)))
            = (floor t - 60 * floor (t / 60))%Z) as <-.
    { replace (t - 60 * IZR (floor (t / 60)))
        with (t + IZR (- (60 * floor (t / 60))))
        by (rewrite opp_IZR, mult_IZR; lra).
      rewrite floor_plus_IZR. lia. }
    split; [by apply floor_nonneg |].
    destruct (floor_spec (t - 60 * IZR (floor (t / 60)))) as [Hf _].
    assert (IZR (floor (t - 60 * IZR (floor (t / 60)))) < IZR 60) as H
      by lra.
    apply lt_IZR in H. lia.
Qed.

End DurationText.

(** X9: the duration text is built from the unrounded minutes, which are
    never negative (the speed divided by is 5, 20 or 60, never 0): below
    one hour it reads "N min" with N the whole minutes, from one hour on
    it reads "Hh Mm" with H at least 1, M between 0 and 59, and
    60 H + M the whole minutes. *)
Theorem duration_text_hours_and_minutes :
  forall (start_lat start_lon end_lat end_lon : R) (mode : string),
    let route := calculate_route start_lat start_lon end_lat end_lon mode in
    let minutes :=
      _calculate_distance start_lat start_lon end_lat end_lon
      * dict_get route_factor mode 1.3 / dict_get avg_speeds mode 60 * 60 in
    0 <= minutes
    /\ (minutes < 60 ->
        Route.duration_text route = pretty (floor minutes) +:+ " min"
        /\ (0 <= floor minutes <= 59)%Z)
    /\ (60 <= minutes ->
        exists h m : Z,
          Route.duration_text route
          = pretty h +:+ "h " +:+ pretty m +:+ "m"
          /\ (1 <= h)%Z /\ (0 <= m <= 59)%Z
          /\ (60 * h + m = floor minutes)%Z).
Proof.
  intros a b c d mode route minutes.
  assert (0 <= minutes) as Hmin.
  { unfold minutes.
    pose proof (distance_nonneg a b c d).
    pose proof (route_factor_bounds mode) as [? ?].
    pose proof (avg_speeds_pos mode) as [? ?].
    apply Rmult_le_pos; [| lra].
    apply Rmult_le_pos; [nra |].
    left. apply Rinv_0_lt_compat. lra. }
  assert (Route.duration_text route
          = if Rle_dec 60 minutes
            then pretty (int (floordiv minutes 60)) +:+ "h "
                 +:+ pretty (int (fmod minutes 60)) +:+ "m"
            else pretty (int minutes) +:+ " min") as -> by done.
  split; [done |]. split.
  - intros Hlt. destruct (Rle_dec 60 minutes); [lra |].
    rewrite int_nonneg by done. split; [done |].
    split; [by apply floor_nonneg |].
    destruct (floor_spec minutes) as [Hf _].
    assert (IZR (floor minutes) < IZR 60) as H by lra.
    apply lt_IZR in H. lia.
  - intros Hge. destruct (Rle_dec 60 minutes); [| lra].
    destruct (hours_minutes minutes Hmin) as (-> & -> & Hm).
    eexists _, _. split; [reflexivity |].
    split; [| split; [done | lia]].
    rewrite <- (floor_IZR 1). apply floor_mono. lra.
Qed.

Lemma duration_text_hours_and_minutes_witness :
  Route.duration_text (calculate_route 0 0 0 0 "walking")
  = pretty (floor (_calculate_distance 0 0 0 0
                   * dict_get route_factor "walking" 1.3
                   / dict_get avg_speeds "walking" 60 * 60)) +:+ " min"
  /\ exists h m : Z,
       Route.duration_text (calculate_route 0 0 1 0 "walking")
       = pretty h +:+ "h " +:+ pretty m +:+ "m"
       /\ (1 <= h)%Z /\ (0 <= m <= 59)%Z
       /\ (60 * h + m)%Z
          = floor (_calculate_distance 0 0 1 0
                   * dict_get route_factor "walking" 1.3
                   / dict_get avg_speeds "walking" 60 * 60).
Proof.
  assert (dict_get route_factor "walking" 1.3 = 1.2) as Hf by reflexivity.
  assert (dict_get avg_speeds "walking" 60 = 5) as Hs by reflexivity.
  split.
  - destruct (duration_text_hours_and_minutes 0 0 0 0 "walking")
      as (_ & Hshort & _).
    apply Hshort. rewrite distance_same, Hf, Hs. lra.
  - destruct (duration_text_hours_and_minutes 0 0 1 0 "walking")
      as (_ & _ & Hlong).
    apply Hlong. rewrite distance_along_meridian, Hf, Hs by lra.
    pose proof PI2_3_2. unfold radians. lra.
Defined.

(** ** Distance matrix: symmetry, agreement with the route estimate *)

(** X10: when the same list of points is given as origins and as
    destinations, the matrix is symmetric (the cells at (i, j) and (j, i)
    carry the same distance, route distance and duration) and its
    diagonal is zero. *)
Theorem distance_matrix_symmetric_on_one_list :
  forall (points : list (R * R)) (i j : nat) (p q : R * R),
    points !! i = Some p -> points !! j = Some q ->
    exists cell mirror : Cell.t,
      Matrix.matrix (distance_matrix points points) !! i ≫= (.!! j)
      = Some cell
      /\ Matrix.matrix (distance_matrix points points) !! j ≫= (.!! i)
         = Some mirror
      /\ Cell.distance_km cell = Cell.distance_km mirror
      /\ Cell.route_distance_km cell = Cell.route_distance_km mirror
      /\ Cell.duration_minutes cell = Cell.duration_minutes mirror
      /\ (i = j ->
          Cell.distance_km cell = 0 /\ Cell.route_distance_km cell = 0
          /\ Cell.duration_minutes cell = 0).
Proof.
  intros points i j p q Hp Hq.
  exists (matrix_cell i j p q), (matrix_cell j i q p).
  split; [by apply matrix_lookup |]. split; [by apply matrix_lookup |].
  unfold matrix_cell. simpl.
  rewrite (distance_sym q.1 q.2 p.1 p.2).
  do 3 (split; [done |]).
  intros ->. rewrite Hp in Hq. injection Hq as ->.
  rewrite distance_same. repeat split.
  - apply round_to_0.
  - replace (0 * 1.3) with 0 by lra. apply round_to_0.
  - replace (0 * 1.3 / 60 * 60) with 0 by lra. apply round_to_0.
Qed.

Lemma distance_matrix_symmetric_on_one_list_witness :
  exists cell mirror : Cell.t,
    Matrix.matrix (distance_matrix [(0, 0); (1, 0)] [(0, 0); (1, 0)])
      !! 0%nat ≫= (.!! 1%nat) = Some cell
    /\ Matrix.matrix (distance_matrix [(0, 0); (1, 0)] [(0, 0); (1, 0)])
         !! 1%nat ≫= (.!! 0%nat) = Some mirror
    /\ Cell.distance_km cell = Cell.distance_km mirror.
Proof.
  destruct (distance_matrix_symmetric_on_one_list [(0, 0); (1, 0)]
              0%nat 1%nat (0, 0) (1, 0) eq_refl eq_refl)
    as (cell & mirror & Hc & Hm & Hd & _).
  exists cell, mirror. exact (conj Hc (conj Hm Hd)).
Defined.

(** X11: a matrix cell agrees with the driving route estimate of its two
    points: its route distance is the distance_km, and its duration the
    duration_minutes, that calculate_route reports for mode driving (and
    for any unknown mode). *)
Theorem distance_matrix_agrees_with_driving_route :
  forall (origins destinations : list (R * R)) (i j : nat)
         (origin_lat origin_lon dest_lat dest_lon : R),
    origins !! i = Some (origin_lat, origin_lon) ->
    destinations !! j = Some (dest_lat, dest_lon) ->
    exists cell : Cell.t,
      Matrix.matrix (distance_matrix origins destinations) !! i ≫= (.!! j)
      = Some cell
      /\ Cell.route_distance_km cell
         = Route.distance_km
             (calculate_route origin_lat origin_lon dest_lat dest_lon
                "driving")
      /\ Cell.duration_minutes cell
         = Route.duration_minutes
             (calculate_route origin_lat origin_lon dest_lat dest_lon
                "driving").
Proof.
  intros origins destinations i j olat olon dlat dlon Ho Hd.
  eexists. split; [by eapply matrix_lookup |]. by split.
Qed.

Lemma distance_matrix_agrees_with_driving_route_witness :
  exists cell : Cell.t,
    Matrix.matrix (distance_matrix [(0, 0)] [(1, 0)]) !! 0%nat ≫= (.!! 0%nat)
    = Some cell
    /\ Cell.route_distance_km cell
       = Route.distance_km (calculate_route 0 0 1 0 "driving")
    /\ Cell.duration_minutes cell
       = Route.duration_minutes (calculate_route 0 0 1 0 "driving").
Proof.
  exact (distance_matrix_agrees_with_driving_route [(0, 0)] [(1, 0)]
           0%nat 0%nat 0 0 1 0 eq_refl eq_refl).
Defined.

(** ** Proximity filter: radius, fields, errors, repeated use *)

Section FindNearbyFacts.

Variables center_lat center_lon : R.

Lemma kept_radius_mono r1 r2 location record :
  r1 <= r2 ->
  kept center_lat center_lon r1 location = Some record ->
  kept center_lat center_lon r2 location = Some record.
Proof.
  intros Hr. unfold kept.
  destruct (numeric_coordinates location) as [[lat lon] |]; [| done].
  destruct (Rle_dec _ r1); [| done].
  destruct (Rle_dec _ r2); [done | lra].
Qed.

Lemma kept_negative_radius r location :
  r < 0 -> kept center_lat center_lon r location = None.
Proof.
  intros Hr. unfold kept.
  destruct (numeric_coordinates location) as [[lat lon] |]; [| done].
  pose proof (distance_nonneg center_lat center_lon lat lon).
  destruct (Rle_dec _ r); [lra | done].
Qed.

Lemma omap_kept_length_mono r1 r2 (locations : list dict) :
  r1 <= r2 ->
  (length (omap (kept center_lat center_lon r1) locations)
   <= length (omap (kept center_lat center_lon r2) locations))%nat.
Proof.
  intros Hr. induction locations as [| location rest IH]; [done |].
  cbn [omap list_omap].
  destruct (kept center_lat center_lon r1 location) as [record |] eqn:H1.
  - rewrite (kept_radius_mono r1 r2 location record Hr H1). simpl. lia.
  - destruct (kept center_lat center_lon r2 location); simpl; lia.
Qed.

Lemma numeric_coordinates_lookup location lat lon :
  numeric_coordinates location = Some (lat, lon) ->
  location !! "latitude" = Some (VNum lat)
  /\ location !! "longitude" = Some (VNum lon).
Proof.
  unfold numeric_coordinates, dict_get.
  destruct (location !! "latitude") as [[| x | s] |];
    destruct (location !! "longitude") as [[| y | t] |];
    simpl; try done.
  by intros [= -> ->].
Qed.

Lemma nearby_record_other lat lon location k :
  k <> "distance_km"%string -> k <> "bearing"%string ->
  k <> "direction"%string ->
  nearby_record center_lat center_lon lat lon location !! k = location !! k.
Proof.
  intros Hd Hb Hr. unfold nearby_record.
  by rewrite !lookup_insert_ne.
Qed.

Lemma nearby_record_idem lat lon location :
  nearby_record center_lat center_lon lat lon
    (nearby_record center_lat center_lon lat lon location)
  = nearby_record center_lat center_lon lat lon location.
Proof.
  unfold nearby_record. apply map_eq. intros k.
  rewrite !lookup_insert. repeat case_decide; done.
Qed.

Lemma nearby_record_numeric lat lon location :
  numeric_coordinates location = Some (lat, lon) ->
  numeric_coordinates (nearby_record center_lat center_lon lat lon location)
  = Some (lat, lon).
Proof.
  intros [Hlat Hlon]%numeric_coordinates_lookup.
  unfold numeric_coordinates, dict_get.
  rewrite !nearby_record_other by done. by rewrite Hlat, Hlon.
Qed.

(** A record that was kept is kept unchanged when it is offered again. *)
Lemma kept_again r location record :
  kept center_lat center_lon r location = Some record ->
  kept center_lat center_lon r record = Some record.
Proof.
  unfold kept at 1.
  destruct (numeric_coordinates location) as [[lat lon] |] eqn:Hnum;
    [| done].
  destruct (Rle_dec _ r) as [Hle |]; [| done]. intros [= <-].
  unfold kept. rewrite (nearby_record_numeric lat lon location Hnum).
  destruct (Rle_dec _ r); [| done].
  by rewrite nearby_record_idem.
Qed.

Lemma omap_kept_fixed r (records : list dict) :
  Forall (fun record =>
            kept center_lat center_lon r record = Some record) records ->
  omap (kept center_lat center_lon r) records = records.
Proof.
  induction 1 as [| record rest Hk _ IH]; [done |].
  cbn [omap list_omap]. by rewrite Hk, IH.
Qed.

End FindNearbyFacts.

Section SortFacts.

Context {A : Type}.

Lemma sort_by_key_sorted_id (l : list (R * A)) :
  StronglySorted key_le l -> sort_by_key l = l.
Proof.
  induction 1 as [| x l Hl IH Hx]; [done |].
  simpl. rewrite IH. destruct l as [| y l']; [done |].
  simpl. apply Forall_cons in Hx as [Hxy _]. unfold key_le in Hxy.
  destruct (Rlt_dec y.1 x.1); [lra | done].
Qed.

Lemma sorted_on_sorted_id (k : A -> R) (l : list A) :
  StronglySorted (fun a b => k a <= k b) l -> sorted_on k l = l.
Proof.
  intros Hl. unfold sorted_on. rewrite sort_by_key_sorted_id.
  - by rewrite <- list_fmap_compose, list_fmap_id.
  - eapply StronglySorted_fmap; [| exact Hl]. by intros a b Hab.
Qed.

Lemma length_omap_le {B} (f : A -> option B) (l : list A) :
  (length (omap f l) <= length l)%nat.
Proof.
  induction l as [| x l IH]; [done |].
  cbn [omap list_omap]. destruct (f x); simpl; lia.
Qed.

End SortFacts.

Lemma round_to_360 : round_to 360 1 = 360.
Proof.
  unfold round_to. replace (360 * 10 ^ 1) with (IZR 3600) by (simpl; lra).
  rewrite round_IZR. simpl. lra.
Qed.

(** X12: a larger radius returns everything a smaller one returns (and
    the call returns for the one as soon as it does for the other); the
    result never has more records than there are candidates, and it is
    empty when the radius is negative. *)
Theorem find_nearby_grows_with_radius :
  forall (center_lat center_lon r1 r2 : R) (locations nearby1 : list dict),
    r1 <= r2 ->
    find_nearby center_lat center_lon locations r1 = Ok nearby1 ->
    exists nearby2 : list dict,
      find_nearby center_lat center_lon locations r2 = Ok nearby2
      /\ (forall record, record ∈ nearby1 -> record ∈ nearby2)
      /\ (length nearby1 <= length nearby2 <= length locations)%nat
      /\ (r1 < 0 -> nearby1 = []).
Proof.
  intros center_lat center_lon r1 r2 locations nearby1 Hr Hok.
  assert (Forall usable locations) as Hall
    by (eapply find_nearby_returns; eauto).
  apply find_nearby_ok_inv in Hok as ->.
  eexists. split; [by apply find_nearby_usable |].
  split; [| split].
  - intros record. rewrite !sorted_on_perm, !list_elem_of_omap.
    intros (location & Hin & Hk). exists location.
    split; [done |]. by eapply kept_radius_mono.
  - rewrite !sorted_on_perm. split.
    + by apply omap_kept_length_mono.
    + apply length_omap_le.
  - intros Hneg.
    assert (omap (kept center_lat center_lon r1) locations = []) as ->;
      [| done].
    clear Hall. induction locations as [| location rest IH]; [done |].
    cbn [omap list_omap]. by rewrite kept_negative_radius.
Qed.

Lemma find_nearby_grows_with_radius_witness :
  let here : dict := {[ "latitude" := VNum 0; "longitude" := VNum 0 ]} in
  find_nearby 0 0 [here] (- 1) = Ok []
  /\ exists nearby2 : list dict,
       find_nearby 0 0 [here] 5 = Ok nearby2
       /\ (length (@nil dict) <= length nearby2 <= 1)%nat.
Proof.
  intros here.
  assert (find_nearby 0 0 [here] (- 1) = Ok []) as Hok.
  { rewrite find_nearby_usable.
    - cbn [omap list_omap]. by rewrite kept_negative_radius by lra.
    - constructor; [| constructor]. right. by eexists. }
  split; [exact Hok |].
  destruct (find_nearby_grows_with_radius 0 0 (- 1) 5 [here] []
              ltac:(lra) Hok) as (nearby2 & Hok2 & _ & Hlen & _).
  exists nearby2. exact (conj Hok2 Hlen).
Defined.

(** X13: a returned record is its candidate with three fields set: every
    other key of the candidate is carried through unchanged (a
    distance_km, bearing or direction the candidate already had is
    overwritten); latitude and longitude are the candidate's numbers,
    the bearing field is a number between 0 and 360 and the direction
    field is one of the eight labels. *)
Theorem find_nearby_record_fields :
  forall (center_lat center_lon radius_km : R)
         (locations nearby : list dict) (record : dict),
    find_nearby center_lat center_lon locations radius_km = Ok nearby ->
    record ∈ nearby ->
    exists (location : dict) (lat lon bearing : R) (direction : string),
      location ∈ locations
      /\ (forall k : string,
            k <> "distance_km"%string -> k <> "bearing"%string ->
            k <> "direction"%string -> record !! k = location !! k)
      /\ location !! "latitude" = Some (VNum lat)
      /\ location !! "longitude" = Some (VNum lon)
      /\ record !! "distance_km"
         = Some (VNum (round_to (_calculate_distance
                                   center_lat center_lon lat lon) 2))
      /\ record !! "bearing" = Some (VNum bearing)
      /\ 0 <= bearing <= 360
      /\ record !! "direction" = Some (VStr direction)
      /\ direction ∈ directions.
Proof.
  intros center_lat center_lon radius_km locations nearby record
    ->%find_nearby_ok_inv Hin.
  rewrite sorted_on_perm in Hin.
  apply list_elem_of_omap in Hin as (location & Hloc & Hkept).
  unfold kept in Hkept.
  destruct (numeric_coordinates location) as [[lat lon] |] eqn:Hnum;
    [| done].
  destruct (Rle_dec _ _); [| done]. injection Hkept as <-.
  destruct (numeric_coordinates_lookup _ _ _ Hnum) as [Hlat Hlon].
  pose proof (bearing_range center_lat center_lon lat lon) as [Hb0 Hb1].
  exists location, lat, lon,
    (round_to (_calculate_bearing center_lat center_lon lat lon) 1),
    (_bearing_to_direction (_calculate_bearing center_lat center_lon lat lon)).
  split; [done |]. split; [intros k; apply nearby_record_other |].
  do 2 (split; [done |]). split; [apply nearby_record_key |].
  split; [| split; [| split]].
  - unfold nearby_record. rewrite lookup_insert_ne by done.
    apply lookup_insert_eq.
  - split.
    + by apply round_to_nonneg.
    + rewrite <- round_to_360. apply round_to_mono. lra.
  - unfold nearby_record. apply lookup_insert_eq.
  - apply list_elem_of_lookup. eexists. apply direction_index.
Qed.

Lemma find_nearby_record_fields_witness :
  let here : dict :=
    {[ "name" := VStr "here"; "distance_km" := VStr "far";
       "latitude" := VNum 0; "longitude" := VNum 0 ]} in
  exists record : dict,
    find_nearby 0 0 [here] 5 = Ok [record]
    /\ record !! "name" = Some (VStr "here")
    /\ record !! "distance_km" = Some (VNum 0).
Proof.
  intros here. exists (nearby_record 0 0 0 0 here).
  assert (find_nearby 0 0 [here] 5 = Ok [nearby_record 0 0 0 0 here]) as Hok.
  { rewrite find_nearby_usable.
    - cbn [omap list_omap]. unfold kept.
      replace (numeric_coordinates here) with (Some (0, 0)) by reflexivity.
      rewrite distance_same. destruct (Rle_dec 0 5); [done | lra].
    - constructor; [| constructor]. right. by eexists. }
  split; [exact Hok |].
  destruct (find_nearby_record_fields 0 0 5 [here] _
              (nearby_record 0 0 0 0 here) Hok)
    as (location & lat & lon & b & d & Hin & Hother & Hlat & Hlon & Hkm & _).
  { by apply list_elem_of_singleton. }
  apply list_elem_of_singleton in Hin as ->.
  split.
  - by rewrite Hother.
  - rewrite Hkm.
    assert (here !! "latitude" = Some (VNum 0)) as Hlat0 by reflexivity.
    assert (here !! "longitude" = Some (VNum 0)) as Hlon0 by reflexivity.
    rewrite Hlat0 in Hlat. rewrite Hlon0 in Hlon.
    injection Hlat as <-. injection Hlon as <-.
    by rewrite distance_same, round_to_0.
Defined.

Lemma kept_usable center_lat center_lon r location record :
  kept center_lat center_lon r location = Some record -> usable location.
Proof.
  unfold kept. destruct (numeric_coordinates location) eqn:Hnum; [| done].
  intros _. right. unfold usable. by rewrite Hnum.
Qed.

(** X14: feeding the result of find_nearby back in, with the same center
    and radius, returns it unchanged: the records are still within the
    radius, their three computed fields are recomputed to the same
    values, and the sorted order is kept. *)
Theorem find_nearby_idempotent :
  forall (center_lat center_lon radius_km : R)
         (locations nearby : list dict),
    find_nearby center_lat center_lon locations radius_km = Ok nearby ->
    find_nearby center_lat center_lon nearby radius_km = Ok nearby.
Proof.
  intros center_lat center_lon radius_km locations nearby
    ->%find_nearby_ok_inv.
  set (records := omap (kept center_lat center_lon radius_km) locations).
  assert (Forall (fun record =>
                    kept center_lat center_lon radius_km record = Some record)
                 (sorted_on distance_km_of records)) as Hfixed.
  { rewrite sorted_on_perm. apply Forall_forall.
    intros record (location & _ & Hk)%list_elem_of_omap.
    by eapply kept_again. }
  rewrite find_nearby_usable.
  - rewrite (omap_kept_fixed _ _ _ _ Hfixed).
    by rewrite sorted_on_sorted_id by apply sorted_on_sorted.
  - eapply Forall_impl; [exact Hfixed |].
    intros record Hk. exact (kept_usable _ _ _ _ _ Hk).
Qed.

Lemma find_nearby_idempotent_witness :
  let here : dict := {[ "latitude" := VNum 0; "longitude" := VNum 0 ]} in
  find_nearby 0 0 [here] 5 = Ok [nearby_record 0 0 0 0 here]
  /\ find_nearby 0 0 [nearby_record 0 0 0 0 here] 5
     = Ok [nearby_record 0 0 0 0 here].
Proof.
  intros here.
  assert (find_nearby 0 0 [here] 5 = Ok [nearby_record 0 0 0 0 here]) as Hok.
  { rewrite find_nearby_usable.
    - cbn [omap list_omap]. unfold kept.
      replace (numeric_coordinates here) with (Some (0, 0)) by reflexivity.
      rewrite distance_same. destruct (Rle_dec 0 5); [done | lra].
    - constructor; [| constructor]. right. by eexists. }
  split; [exact Hok |].
  exact (find_nearby_idempotent 0 0 5 [here] _ Hok).
Defined.

Section FindNearbyErrors.

Variables center_lat center_lon radius_km : R.

Lemma loop_raises_type_error locations nearby e :
  find_nearby_loop center_lat center_lon radius_km locations nearby
  = Raise e ->
  e = TypeError.
Proof.
  revert nearby.
  induction locations as [| location rest IH]; intros nearby Hr; [done |].
  cbn [find_nearby_loop] in Hr.
  destruct (dict_get location "latitude" VNone) as [| lat | s1];
    destruct (dict_get location "longitude" VNone) as [| lon | s2];
    cbn in Hr; try (by eapply IH); try congruence.
  destruct (Rle_dec _ _); by eapply IH.
Qed.

Lemma find_nearby_raises_type_error locations e :
  find_nearby center_lat center_lon locations radius_km = Raise e ->
  e = TypeError.
Proof.
  intros Hr. unfold find_nearby in Hr.
  destruct (find_nearby_loop _ _ _ _ _) as [nearby | e'] eqn:Hloop.
  - assert (Forall usable locations) as Hall by by eapply loop_ok_usable.
    pose proof (find_nearby_usable center_lat center_lon radius_km
                  locations Hall) as Hok.
    unfold find_nearby in Hok. rewrite Hloop in Hok. congruence.
  - cbn in Hr. injection Hr as <-. by eapply loop_raises_type_error.
Qed.

Lemma not_usable location :
  ~ usable location
  <-> lacks_coordinates location = false
      /\ numeric_coordinates location = None.
Proof.
  unfold usable. split.
  - intros Hn. split.
    + destruct (lacks_coordinates location); [| done]. exfalso. auto.
    + destruct (numeric_coordinates location); [| done].
      exfalso. apply Hn. right. by eexists.
  - intros [Hl Hnum] [Hl' | [x Hx]]; congruence.
Qed.

Lemma usable_dec location : {usable location} + {~ usable location}.
Proof.
  destruct (lacks_coordinates location) eqn:Hl; [left; by left |].
  destruct (numeric_coordinates location) as [x |] eqn:Hnum.
  - left. right. unfold usable. by rewrite Hnum.
  - right. by apply not_usable.
Qed.

End FindNearbyErrors.

(** X15: a candidate whose two coordinates are present but are not both
    numbers is not skipped: the whole call raises and no partial result
    is returned, whatever the other candidates are; the key lookup of
    the final sort never fails, since every kept record has its
    distance. *)
Theorem find_nearby_fails_on_malformed_candidate :
  forall (center_lat center_lon radius_km : R) (locations : list dict),
    (forall e : exn,
        find_nearby center_lat center_lon locations radius_km = Raise e ->
        e <> KeyError)
    /\ (Exists (fun location =>
                  lacks_coordinates location = false
                  /\ numeric_coordinates location = None) locations ->
        exists e : exn,
          find_nearby center_lat center_lon locations radius_km = Raise e).
Proof.
  intros center_lat center_lon radius_km locations. split.
  - intros e He. by rewrite (find_nearby_raises_type_error _ _ _ _ _ He).
  - intros (location & Hin & Hn)%Exists_exists.
    destruct (find_nearby center_lat center_lon locations radius_km)
      as [nearby | e] eqn:Hf; [| by exists e].
    assert (Forall usable locations) as Hall
      by (apply (find_nearby_returns center_lat center_lon radius_km
                   locations); eauto).
    rewrite Forall_forall in Hall.
    by destruct (proj2 (not_usable location) Hn (Hall location Hin)).
Qed.

Lemma find_nearby_fails_on_malformed_candidate_witness :
  let here : dict := {[ "latitude" := VNum 0; "longitude" := VNum 0 ]} in
  let odd : dict := {[ "latitude" := VStr "north"; "longitude" := VNum 0 ]} in
  exists e : exn, find_nearby 0 0 [here; odd] 5 = Raise e.
Proof.
  intros here odd.
  apply (proj2 (find_nearby_fails_on_malformed_candidate 0 0 5 [here; odd])).
  apply Exists_cons_tl, Exists_cons_hd. by split.
Defined.

(** ** The three operations on one pair of points *)

(** X16: for one pair of points the three operations agree: the record
    find_nearby returns for a candidate carries the bearing and the
    direction that calculate_route reports from the center to it, and
    the straight-line distance_km that distance_matrix reports for the
    pair, which is never above the route distance_km of any mode. *)
Theorem operations_agree_on_one_pair :
  forall (center_lat center_lon radius_km : R)
         (locations nearby : list dict) (record : dict) (mode : string),
    find_nearby center_lat center_lon locations radius_km = Ok nearby ->
    record ∈ nearby ->
    exists (lat lon : R) (cell : Cell.t),
      record !! "latitude" = Some (VNum lat)
      /\ record !! "longitude" = Some (VNum lon)
      /\ Matrix.matrix (distance_matrix [(center_lat, center_lon)]
                          [(lat, lon)]) = [[cell]]
      /\ let route := calculate_route center_lat center_lon lat lon mode in
         record !! "bearing" = Some (VNum (Route.bearing route))
         /\ record !! "direction" = Some (VStr (Route.direction route))
         /\ record !! "distance_km" = Some (VNum (Cell.distance_km cell))
         /\ Cell.distance_km cell <= Route.distance_km route.
Proof.
  intros center_lat center_lon radius_km locations nearby record mode
    ->%find_nearby_ok_inv Hin.
  rewrite sorted_on_perm in Hin.
  apply list_elem_of_omap in Hin as (location & Hloc & Hkept).
  unfold kept in Hkept.
  destruct (numeric_coordinates location) as [[lat lon] |] eqn:Hnum;
    [| done].
  destruct (Rle_dec _ _); [| done]. injection Hkept as <-.
  destruct (numeric_coordinates_lookup _ _ _ Hnum) as [Hlat Hlon].
  exists lat, lon. eexists.
  split; [by rewrite nearby_record_other |].
  split; [by rewrite nearby_record_other |].
  split; [reflexivity |]. cbn.
  split; [| split; [| split]].
  - unfold nearby_record. rewrite lookup_insert_ne by done.
    apply lookup_insert_eq.
  - unfold nearby_record. apply lookup_insert_eq.
  - apply nearby_record_key.
  - apply round_to_mono.
    pose proof (distance_nonneg center_lat center_lon lat lon).
    pose proof (route_factor_bounds mode). nra.
Qed.

Lemma operations_agree_on_one_pair_witness :
  let here : dict := {[ "latitude" := VNum 0; "longitude" := VNum 0 ]} in
  exists (lat lon : R) (cell : Cell.t),
    nearby_record 0 0 0 0 here !! "latitude" = Some (VNum lat)
    /\ nearby_record 0 0 0 0 here !! "longitude" = Some (VNum lon)
    /\ Matrix.matrix (distance_matrix [(0, 0)] [(lat, lon)]) = [[cell]]
    /\ nearby_record 0 0 0 0 here !! "bearing"
       = Some (VNum (Route.bearing (calculate_route 0 0 lat lon "cycling"))).
Proof.
  intros here.
  assert (find_nearby 0 0 [here] 5 = Ok [nearby_record 0 0 0 0 here]) as Hok.
  { rewrite find_nearby_usable.
    - cbn [omap list_omap]. unfold kept.
      replace (numeric_coordinates here) with (Some (0, 0)) by reflexivity.
      rewrite distance_same. destruct (Rle_dec 0 5); [done | lra].
    - constructor; [| constructor]. right. by eexists. }
  destruct (operations_agree_on_one_pair 0 0 5 [here] _
              (nearby_record 0 0 0 0 here) "cycling" Hok)
    as (lat & lon & cell & Hlat & Hlon & Hcell & Hb & _).
  { by apply list_elem_of_singleton. }
  exists lat, lon, cell. exact (conj Hlat (conj Hlon (conj Hcell Hb))).
Defined.

(** ** The geocoding server's copy of the distance function *)

(** X17: the geocoding server's own haversine function (used to rank the
    places found near a point) returns the same distance as the routing
    server's for all coordinates, so it is symmetric, 0 at identical
    points and between 0 and 6371 * pi as well. *)
Theorem geocoding_distance_agrees_with_routing :
  forall lat1 lon1 lat2 lon2 : R,
    GeocodingServer._calculate_distance lat1 lon1 lat2 lon2
    = RoutingServer._calculate_distance lat1 lon1 lat2 lon2
    /\ GeocodingServer._calculate_distance lat1 lon1 lat2 lon2
       = GeocodingServer._calculate_distance lat2 lon2 lat1 lon1
    /\ GeocodingServer._calculate_distance lat1 lon1 lat1 lon1 = 0
    /\ 0 <= GeocodingServer._calculate_distance lat1 lon1 lat2 lon2
       <= 6371 * PI.
Proof.
  intros lat1 lon1 lat2 lon2.
  assert (forall a b c d,
             GeocodingServer._calculate_distance a b c d
             = RoutingServer._calculate_distance a b c d) as Heq by done.
  rewrite !Heq. split; [done |].
  split; [apply distance_sym |]. split; [apply distance_same |].
  split; [apply distance_nonneg | apply distance_le_half_turn].
Qed.

(** ** The weather codes *)

Section WeatherCodes.
Import WeatherServer.

Lemma string_length_app (s t : string) :
  String.length (s +:+ t) = (String.length s + String.length t)%nat.
Proof. induction s as [| a s IH]; simpl; [done | by rewrite IH]. Qed.

(** Appending the same text on the right is injective. *)
Lemma string_app_inj_r (s1 s2 t : string) :
  s1 +:+ t = s2 +:+ t -> s1 = s2.
Proof.
  revert s2. induction s1 as [| a s1 IH]; intros [| b s2] Heq; simpl in *.
  - done.
  - apply (f_equal String.length) in Heq.
    rewrite !string_length_app in Heq. simpl in Heq. lia.
  - apply (f_equal String.length) in Heq.
    rewrite !string_length_app in Heq. simpl in Heq. lia.
  - injection Heq as -> Heq. f_equal. by apply IH.
Qed.

Lemma NoDup_snd_inj {A B} (l : list (A * B)) a1 a2 b :
  NoDup l.*2 -> (a1, b) ∈ l -> (a2, b) ∈ l -> a1 = a2.
Proof.
  induction l as [| [a' b'] l IH]; simpl; [by intros _ ?%elem_of_nil |].
  intros [Hnotin Hnd]%NoDup_cons [H1 | H1]%elem_of_cons
    [H2 | H2]%elem_of_cons.
  - congruence.
  - injection H1 as -> ->. destruct Hnotin.
    apply list_elem_of_fmap. by exists (a2, b').
  - injection H2 as -> ->. destruct Hnotin.
    apply list_elem_of_fmap. by exists (a1, b').
  - by apply IH.
Qed.

(** The descriptions of the table are pairwise different, and none of
    them begins like the text for an unknown code. *)
Lemma code_map_descriptions :
  NoDup (map_to_list code_map).*2
  /\ Forall (fun s => String.get 0 s <> String.get 0 "U")
            (map_to_list code_map).*2.
Proof.
  split.
  - apply (bool_decide_unpack _). by vm_compute.
  - apply (bool_decide_unpack _). by vm_compute.
Qed.

Lemma known_code_description code s :
  code_map !! code = Some s ->
  (code, s) ∈ map_to_list code_map /\ String.get 0 s <> String.get 0 "U".
Proof.
  intros Hs. assert ((code, s) ∈ map_to_list code_map) as Hin
    by by apply elem_of_map_to_list.
  split; [done |].
  destruct code_map_descriptions as [_ Hall].
  rewrite Forall_forall in Hall. apply Hall.
  apply list_elem_of_fmap. by exists (code, s).
Qed.

End WeatherCodes.

(** X18: the description of a weather code determines the code: two
    different codes, in the table or not, never get the same text (the
    table has no repeated description, and the text for an unknown code
    names the code and differs from every entry of the table). *)
Theorem weather_description_determines_code :
  forall code1 code2 : Z,
    WeatherServer._interpret_weather_code code1
    = WeatherServer._interpret_weather_code code2 ->
    code1 = code2.
Proof.
  intros code1 code2. unfold WeatherServer._interpret_weather_code.
  destruct (WeatherServer.code_map !! code1) as [s1 |] eqn:H1;
    destruct (WeatherServer.code_map !! code2) as [s2 |] eqn:H2; simpl.
  - intros ->.
    destruct (known_code_description _ _ H1) as [Hin1 _].
    destruct (known_code_description _ _ H2) as [Hin2 _].
    destruct code_map_descriptions as [Hnd _].
    by eapply NoDup_snd_inj.
  - intros ->. by destruct (known_code_description _ _ H1) as [_ []].
  - intros <-. by destruct (known_code_description _ _ H2) as [_ []].
  - intros Heq. apply (inj (String.append _)) in Heq.
    by apply string_app_inj_r, (inj pretty) in Heq.
Qed.

Lemma weather_description_determines_code_witness :
  WeatherServer._interpret_weather_code 3 = "Overcast"%string
  /\ WeatherServer._interpret_weather_code 4
     = "Unknown weather (code 4)"%string
  /\ 4%Z = 4%Z.
Proof.
  split; [by vm_compute |]. split; [by vm_compute |].
  by apply (weather_description_determines_code 4 4).
Defined.

(** ** The haversine term away from opposite points *)

Section DistanceMargin.

Lemma sin_multiple_le (n : nat) x :
  Rabs (sin (INR n * x)) <= INR n * Rabs (sin x).
Proof.
  induction n as [| n IH].
  - simpl. rewrite Rmult_0_l, sin_0, Rabs_R0. lra.
  - rewrite S_INR.
    replace ((INR n + 1) * x) with (INR n * x + x) by lra.
    rewrite sin_plus.
    eapply Rle_trans; [apply Rabs_triang |].
    rewrite !Rabs_mult.
    pose proof (Rabs_pos (sin (INR n * x))) as H1.
    pose proof (Rabs_pos (sin x)) as H2.
    assert (Rabs (cos x) <= 1) as H3
      by (apply Rabs_le; pose proof (COS_bound x); lra).
    assert (Rabs (cos (INR n * x)) <= 1) as H4
      by (apply Rabs_le; pose proof (COS_bound (INR n * x)); lra).
    nra.
Qed.

Lemma part_bounds (n : nat) a :
  (0 < n)%nat -> 0 < a -> 0 < a / INR n <= a.
Proof.
  intros Hn Ha.
  assert (1 <= INR n) as Hn1 by (apply (le_INR 1); lia).
  assert (a / INR n * INR n = a) as Heq by (field; lra).
  assert (0 < a / INR n) by (apply Rdiv_lt_0_compat; lra).
  split; [done | nra].
Qed.

(** The sine of the n-th part of a quarter turn is at least 1/n. *)
Lemma sin_quarter_turn_part (n : nat) :
  (0 < n)%nat -> 1 / INR n <= sin (PI / 2 / INR n).
Proof.
  intros Hn. pose proof PI_RGT_0 as Hpi.
  assert (1 <= INR n) as Hn1 by (apply (le_INR 1); lia).
  pose proof (sin_multiple_le n (PI / 2 / INR n)) as H.
  replace (INR n * (PI / 2 / INR n)) with (PI / 2) in H by (field; lra).
  rewrite sin_PI2, Rabs_R1 in H.
  destruct (part_bounds n (PI / 2) Hn ltac:(lra)) as [Hlo Hhi].
  assert (0 < sin (PI / 2 / INR n)) as Hs by (apply sin_gt_0; lra).
  rewrite Rabs_right in H by lra.
  assert (1 / INR n * INR n = 1) as Heq by (field; lra).
  nra.
Qed.

(** Within 90 - 90/n degrees of the equator the cosine of the latitude
    is at least 1/n. *)
Lemma cos_radians_lower (n : nat) x :
  (0 < n)%nat -> Rabs x <= 90 - 90 / INR n -> 1 / INR n <= cos (radians x).
Proof.
  intros Hn Hx. pose proof PI_RGT_0 as Hpi.
  destruct (part_bounds n 90 Hn ltac:(lra)) as [Hq1 Hq2].
  assert (1 <= INR n) as Hn1 by (apply (le_INR 1); lia).
  eapply Rle_trans; [apply (sin_quarter_turn_part n Hn) |].
  rewrite <- cos_shift.
  replace (cos (radians x)) with (cos (radians (Rabs x))).
  2:{ unfold Rabs. destruct (Rcase_abs x); [| done].
      replace (radians (- x)) with (- radians x) by (unfold radians; lra).
      apply cos_neg. }
  pose proof (Rabs_pos x) as Hpos.
  assert (PI / 2 / INR n = radians (90 / INR n)) as ->
    by (unfold radians; field; lra).
  apply cos_decr_1; unfold radians; nra.
Qed.

(** Away from the poles and from opposite meridians the haversine term
    keeps a distance from 1: one minus the term is at least the product
    of the two cosines of latitude and the squared cosine of half the
    longitude difference. *)
Lemma haversine_a_margin lat1 lon1 lat2 lon2 :
  clear_of_opposite lat1 lon1 lat2 lon2 ->
  haversine_a lat1 lon1 lat2 lon2 <= 1 - 1e-9.
Proof.
  intros (H1 & H2 & H3).
  pose proof (cos_radians_lower 90 lat1 ltac:(lia)) as Hc1.
  pose proof (cos_radians_lower 90 lat2 ltac:(lia)) as Hc2.
  pose proof (cos_radians_lower 180 ((lon2 - lon1) / 2) ltac:(lia)) as Hc3.
  replace (INR 90) with 90 in * by (by rewrite INR_IZR_INZ).
  replace (INR 180) with 180 in * by (by rewrite INR_IZR_INZ).
  specialize (Hc1 ltac:(lra)). specialize (Hc2 ltac:(lra)).
  assert (Rabs ((lon2 - lon1) / 2) <= 90 - 90 / 180) as Hhalf.
  { pose proof (Rle_abs (lon2 - lon1)) as Hp.
    pose proof (Rle_abs (- (lon2 - lon1))) as Hn. rewrite Rabs_Ropp in Hn.
    apply Rabs_le. lra. }
  specialize (Hc3 Hhalf).
  replace (radians ((lon2 - lon1) / 2)) with (radians (lon2 - lon1) / 2)
    in Hc3 by (unfold radians; lra).
  unfold haversine_a. rewrite sin_half_sqr.
  replace (radians (lat2 - lat1)) with (radians lat2 - radians lat1)
    by (unfold radians; lra).
  rewrite cos_minus.
  pose proof (COS_bound (radians lat1 + radians lat2)) as [_ Hsum].
  rewrite cos_plus in Hsum.
  pose proof (sin2_cos2 (radians (lon2 - lon1) / 2)) as Hd. unfold Rsqr in Hd.
  generalize dependent (radians (lon2 - lon1) / 2).
  generalize dependent (radians lat1). generalize dependent (radians lat2).
  intros q Hc2 p Hc1 Hsum l Hc3 Hd.
  set (sp := sin p) in *. set (cp := cos p) in *.
  set (sq := sin q) in *. set (cq := cos q) in *.
  set (sl := sin l) in *. set (cl := cos l) in *.
  assert (sl ^ 2 = 1 - cl * cl) as -> by (simpl; lra).
  assert (1 / 90 * (1 / 90) <= cp * cq) as Hcc by nra.
  assert (1 / 180 * (1 / 180) <= cl * cl) as Hll by nra.
  assert (1 / 90 * (1 / 90) * (1 / 180 * (1 / 180)) <= cp * cq * (cl * cl))
    as Hprod by (apply Rmult_le_compat; lra).
  lra.
Qed.

End DistanceMargin.

(** X19: for two points within 89 degrees of the equator whose
    longitudes differ by at most 179 degrees, the haversine term stays
    below 1 by at least 1e-9: the two square roots are taken of a number
    that is at least 0 and of one that is at least 1e-9, and the distance
    is strictly less than half the circumference. *)
Theorem haversine_term_clear_of_one :
  forall lat1 lon1 lat2 lon2 : R,
    clear_of_opposite lat1 lon1 lat2 lon2 ->
    let a := haversine_a lat1 lon1 lat2 lon2 in
    _calculate_distance lat1 lon1 lat2 lon2
    = 6371 * (2 * atan2 (sqrt a) (sqrt (1 - a)))
    /\ 0 <= a
    /\ 1e-9 <= 1 - a
    /\ _calculate_distance lat1 lon1 lat2 lon2 < 6371 * PI.
Proof.
  intros lat1 lon1 lat2 lon2 Hclear a.
  pose proof (haversine_a_margin _ _ _ _ Hclear) as Hm.
  pose proof (haversine_a_bounds lat1 lon1 lat2 lon2) as [Ha _].
  fold a in Hm, Ha.
  split; [apply distance_unfold |]. split; [exact Ha |].
  split; [lra |].
  rewrite distance_unfold. fold a.
  assert (0 < sqrt (1 - a)) as Hroot by (apply sqrt_lt_R0; lra).
  unfold atan2. destruct (Rlt_dec 0 (sqrt (1 - a))); [| lra].
  pose proof (atan_bound (sqrt a / sqrt (1 - a))). lra.
Qed.

Lemma haversine_term_clear_of_one_witness :
  clear_of_opposite 40.7128 (- 74.0060) 42.3601 (- 71.0589)
  /\ 1e-9 <= 1 - haversine_a 40.7128 (- 74.0060) 42.3601 (- 71.0589)
  /\ _calculate_distance 40.7128 (- 74.0060) 42.3601 (- 71.0589)
     < 6371 * PI.
Proof.
  assert (clear_of_opposite 40.7128 (- 74.0060) 42.3601 (- 71.0589))
    as Hclear by (repeat split; apply Rabs_le; lra).
  split; [exact Hclear |].
  pose proof (haversine_term_clear_of_one _ _ _ _ Hclear)
    as (_ & _ & Hm & Hd).
  exact (conj Hm Hd).
Defined.

(** X20: for k origins and m destinations (either list may be empty),
    every origin and destination pair clear of the poles and of opposite
    meridians, the matrix has k rows of m cells; the cell at row i and
    column j carries the indices i and j, the rounded straight-line
    distance, that distance times the driving factor 1.3 as route
    distance, and the duration at 60 km/h; in every cell distance_km is
    at most route_distance_km, and the haversine term of its pair is
    below 1 by at least 1e-9. *)
Theorem distance_matrix_dense_and_bounded :
  forall origins destinations : list (R * R),
    Forall (fun origin =>
              Forall (fun dest =>
                        clear_of_opposite origin.1 origin.2 dest.1 dest.2)
                     destinations)
           origins ->
    let result := distance_matrix origins destinations in
    length (Matrix.matrix result) = length origins
    /\ Forall (fun row => length row = length destinations)
              (Matrix.matrix result)
    /\ Forall (Forall (fun cell =>
                 Cell.distance_km cell <= Cell.route_distance_km cell))
              (Matrix.matrix result)
    /\ forall (i j : nat) (origin_lat origin_lon dest_lat dest_lon : R),
         origins !! i = Some (origin_lat, origin_lon) ->
         destinations !! j = Some (dest_lat, dest_lon) ->
         let distance :=
           _calculate_distance origin_lat origin_lon dest_lat dest_lon in
         Matrix.matrix result !! i ≫= (.!! j)
         = Some {| Cell.distance_km := round_to distance 2;
                   Cell.route_distance_km := round_to (distance * 1.3) 2;
                   Cell.duration_minutes :=
                     round_to (distance * 1.3 / 60 * 60) 1;
                   Cell.origin_index := i;
                   Cell.destination_index := j |}
         /\ round_to distance 2 <= round_to (distance * 1.3) 2
         /\ haversine_a origin_lat origin_lon dest_lat dest_lon <= 1 - 1e-9.
Proof.
  intros origins destinations Hclear result. unfold result.
  rewrite matrix_unfold. split; [apply length_imap |].
  split; [| split].
  - apply Forall_forall. intros row (i & origin & -> & _)%elem_of_lookup_imap.
    apply length_imap.
  - apply Forall_forall. intros row (i & origin & -> & _)%elem_of_lookup_imap.
    apply Forall_forall.
    intros cell (j & dest & -> & _)%elem_of_lookup_imap.
    apply matrix_cell_bounded.
  - intros i j origin_lat origin_lon dest_lat dest_lon Ho Hd. cbv zeta.
    split; [| split].
    + rewrite <- matrix_unfold.
      by rewrite (matrix_lookup _ _ i j (origin_lat, origin_lon)
                    (dest_lat, dest_lon)).
    + apply (matrix_cell_bounded i j (origin_lat, origin_lon)
               (dest_lat, dest_lon)).
    + apply haversine_a_margin.
      rewrite Forall_forall in Hclear.
      apply list_elem_of_lookup_2 in Ho, Hd.
      specialize (Hclear _ Ho). rewrite Forall_forall in Hclear.
      apply (Hclear _ Hd).
Qed.

Lemma distance_matrix_dense_and_bounded_witness :
  let result := distance_matrix [(0, 0)] [(0, 0); (1, 0)] in
  length (Matrix.matrix result) = 1%nat
  /\ Matrix.matrix result !! 0%nat ≫= (.!! 1%nat)
     = Some {| Cell.distance_km := round_to (_calculate_distance 0 0 1 0) 2;
               Cell.route_distance_km :=
                 round_to (_calculate_distance 0 0 1 0 * 1.3) 2;
               Cell.duration_minutes :=
                 round_to (_calculate_distance 0 0 1 0 * 1.3 / 60 * 60) 1;
               Cell.origin_index := 0;
               Cell.destination_index := 1 |}
  /\ round_to (_calculate_distance 0 0 1 0) 2
     <= round_to (_calculate_distance 0 0 1 0 * 1.3) 2
  /\ haversine_a 0 0 1 0 <= 1 - 1e-9.
Proof.
  assert (Forall (fun origin : R * R =>
                    Forall (fun dest : R * R =>
                              clear_of_opposite origin.1 origin.2
                                dest.1 dest.2)
                           [(0, 0); (1, 0)])
                 [(0, 0)]) as Hclear.
  { repeat first [apply Forall_nil_2 | apply Forall_cons_2].
    all: repeat split; simpl; apply Rabs_le; lra. }
  pose proof (distance_matrix_dense_and_bounded [(0, 0)] [(0, 0); (1, 0)]
                Hclear) as (Hrows & _ & _ & Hcell).
  split; [exact Hrows |].
  exact (Hcell 0%nat 1%nat 0 0 1 0 eq_refl eq_refl).
Defined.

(** X21: for start and end clear of the poles and of opposite meridians
    and a mode string other than driving, walking and cycling, the route
    is computed with the driving road factor 1.3 and the driving speed
    60 km/h; the record is the one for driving except that its mode
    field echoes the string given; the haversine term of the two points
    is below 1 by at least 1e-9. *)
Theorem unknown_mode_falls_back_to_driving :
  forall (start_lat start_lon end_lat end_lon : R) (mode : string),
    mode <> "driving"%string -> mode <> "walking"%string ->
    mode <> "cycling"%string ->
    clear_of_opposite start_lat start_lon end_lat end_lon ->
    let route := calculate_route start_lat start_lon end_lat end_lon mode in
    let driving :=
      calculate_route start_lat start_lon end_lat end_lon "driving" in
    let distance :=
      _calculate_distance start_lat start_lon end_lat end_lon in
    Route.mode route = mode
    /\ Route.distance_km route = round_to (distance * 1.3) 2
    /\ Route.duration_minutes route = round_to (distance * 1.3 / 60 * 60) 1
    /\ route
       = {| Route.distance_km := Route.distance_km driving;
            Route.distance_text := Route.distance_text driving;
            Route.duration_minutes := Route.duration_minutes driving;
            Route.duration_text := Route.duration_text driving;
            Route.mode := mode;
            Route.steps := Route.steps driving;
            Route.start_coordinates := Route.start_coordinates driving;
            Route.end_coordinates := Route.end_coordinates driving;
            Route.bearing := Route.bearing driving;
            Route.direction := Route.direction driving |}
    /\ haversine_a start_lat start_lon end_lat end_lon <= 1 - 1e-9.
Proof.
  intros a b c d mode Hd Hw Hc Hclear route driving distance.
  unfold route, driving, distance, calculate_route, dict_get.
  rewrite route_factor_other, avg_speeds_other by done.
  repeat split. by apply haversine_a_margin.
Qed.

Lemma unknown_mode_falls_back_to_driving_witness :
  let route := calculate_route 0 0 1 0 "flying" in
  Route.mode route = "flying"%string
  /\ Route.distance_km route = round_to (_calculate_distance 0 0 1 0 * 1.3) 2
  /\ Route.duration_minutes route
     = round_to (_calculate_distance 0 0 1 0 * 1.3 / 60 * 60) 1
  /\ haversine_a 0 0 1 0 <= 1 - 1e-9.
Proof.
  assert (clear_of_opposite 0 0 1 0) as Hclear
    by (repeat split; apply Rabs_le; lra).
  pose proof (unknown_mode_falls_back_to_driving 0 0 1 0 "flying"
                ltac:(discriminate) ltac:(discriminate) ltac:(discriminate)
                Hclear)
    as (Hm & Hkm & Hmin & _ & Hterm).
  exact (conj Hm (conj Hkm (conj Hmin Hterm))).
Defined.
